(** * Characteristics-based scattering amplitudes (Supplement.ipynb)

  A shallow embedding of the notebook's evaluators:
  the material profile [c_fun], [Z_fun], [Z_prime]; the characteristic path
  [X] and travel time [T]; and the truncated amplitude series
  [transmitted_wave] and [reflected_wave].

  Modelling conventions.
  - Python/NumPy floating-point numbers are modelled by the real numbers
    [R]; rounding, overflow and NaN are outside the model.
  - A NumPy comparison yields a boolean that is then used as the number
    0 or 1; this is the coercion [b2r] below.
  - [np.log] is modelled by [ln].  The two agree on positive arguments
    only, so every statement that depends on the value of a logarithm
    carries (or derives) the positivity of its argument.
  - Division is the total division of [R].  A division by a zero
    parameter (which Python reports as an error, or as inf or nan) is
    outside the model, and [raises] speaks of the evaluators' own [raise]
    statements.
  - A one-dimensional NumPy array is a [list R]; arithmetic on arrays is
    elementwise ([vmap], [vmap2]).
  - [scipy.integrate] is an external collaborator: its three entry points
    are the fields of the class [Integrate].
  - [raise Exception(msg)] is the constructor [Raise msg] of [result]. *)

From Stdlib Require Import Reals Lra Lia ZArith List String Bool.
Import ListNotations.

Open Scope R_scope.

(** ** NumPy-style comparisons and arrays *)

Module Np.

Definition Rltb (x y : R) : bool := if Rlt_dec x y then true else false.
Definition Rleb (x y : R) : bool := if Rle_dec x y then true else false.
Definition Rgtb (x y : R) : bool := Rltb y x.
Definition Rgeb (x y : R) : bool := Rleb y x.

(** A boolean used in arithmetic is 1 or 0. *)
Definition b2r (b : bool) : R := if b then 1 else 0.

(** Arrays. *)
Definition array := list R.

Definition vmap (f : R -> R) (x : array) : array := map f x.

Fixpoint vmap2 (f : R -> R -> R) (a b : array) : array :=
  match a, b with
  | u :: a', v :: b' => f u v :: vmap2 f a' b'
  | _, _ => []
  end.

Definition zeros_like (x : array) : array := vmap (fun _ => 0) x.

Definition vadd : array -> array -> array := vmap2 Rplus.
Definition vmul : array -> array -> array := vmap2 Rmult.

End Np.

Export Np.

Coercion b2r : bool >-> R.

Infix "<?" := Rltb (at level 70, no associativity) : R_scope.
Infix "<=?" := Rleb (at level 70, no associativity) : R_scope.
Infix ">?" := Rgtb (at level 70, no associativity) : R_scope.
Infix ">=?" := Rgeb (at level 70, no associativity) : R_scope.

(** ** Physical parameters

  The notebook keeps them as module-level variables (cells "Figure 8(a)"
  and "Figure 11(a)"); [s], [sZ] and [t_r] are computed from them there. *)

Record Params : Type := mkParams {
  c_l : R;        (* sound speed on the left *)
  c_r : R;        (* sound speed on the right *)
  Z_l : R;        (* impedance on the left *)
  Z_r : R;        (* impedance on the right *)
  x_0 : R;        (* left end of the slope *)
  x_r : R;        (* right end of the slope *)
  oscillate : R   (* amplitude of the sinusoidal perturbation of Z *)
}.

(** [s = (c_r-c_l)/(x_r-x_0)] *)
Definition s (p : Params) : R := (c_r p - c_l p) / (x_r p - x_0 p).

(** [sZ = (Z_r-Z_l)/(x_r-x_0)] *)
Definition sZ (p : Params) : R := (Z_r p - Z_l p) / (x_r p - x_0 p).

(** [t_r = 1./s*np.log(s*x_r/c_l+1)], the crossing time. *)
Definition t_r (p : Params) : R := 1 / s p * ln (s p * x_r p / c_l p + 1).

(** ** Material profile, characteristic path, travel time *)

Section Profile.

Variable p : Params.

(** [(x<x_0)*c_l + (x>x_r)*c_r + (x>=x_0)*(x<=x_r)*(c_l + s*(x-x_0))] *)
Definition c_fun (x : R) : R :=
  (x <? x_0 p) * c_l p + (x >? x_r p) * c_r p
  + (x >=? x_0 p) * (x <=? x_r p) * (c_l p + s p * (x - x_0 p)).

(** [(x<x_0)*Z_l + (x>x_r)*Z_r + (x>=x_0)*(x<=x_r)*(Z_l + sZ*(x-x_0))
     + oscillate*(x>x_0)*(x<x_r)*np.sin(10*np.pi*x)] *)
Definition Z_fun (x : R) : R :=
  (x <? x_0 p) * Z_l p + (x >? x_r p) * Z_r p
  + (x >=? x_0 p) * (x <=? x_r p) * (Z_l p + sZ p * (x - x_0 p))
  + oscillate p * (x >? x_0 p) * (x <? x_r p) * sin (10 * PI * x).

Definition Z_prime (x : R) : R :=
  if Req_dec_T (oscillate p) 0 then sZ p
  else sZ p + oscillate p * 10 * PI * cos (10 * PI * x).

(** Right-hand side of the ODE for the unreflected characteristic. *)
Definition X_rhs (X t : R) : R := c_fun X.

(** [(t<=0)*0 + (t>=t_r)*x_r + (t>0)*(t<t_r)*c_l/s*(np.exp(s*t)-1)] *)
Definition X (t : R) : R :=
  (t <=? 0) * 0 + (t >=? t_r p) * x_r p
  + (t >? 0) * (t <? t_r p) * c_l p / s p * (exp (s p * t) - 1).

(** [1./s*np.log(s*x/c_l+1)] *)
Definition T (x : R) : R := 1 / s p * ln (s p * x / c_l p + 1).

End Profile.

(** ** External collaborators and errors *)

(** [scipy.integrate]: [quad(f,a,b)], [dblquad(f,a,b,gfun,hfun)] with
    [f(y,x)], and [tplquad(f,a,b,gfun,hfun,qfun,rfun)] with [f(z,y,x)].
    The notebook always passes [epsabs=1.e-3, epsrel=1.e-3] and keeps the
    first component of the answer; both are part of the instance. *)
Class Integrate : Type := {
  quad : (R -> R) -> R -> R -> R;
  dblquad : (R -> R -> R) -> R -> R -> (R -> R) -> (R -> R) -> R;
  tplquad : (R -> R -> R -> R) -> R -> R -> (R -> R) -> (R -> R) ->
            (R -> R -> R) -> (R -> R -> R) -> R
}.

(** The outcome of a call: a value, or [raise Exception(msg)]. *)
Inductive result (A : Type) : Type :=
| Ok (a : A)
| Raise (msg : string).

Arguments Ok {A} a.
Arguments Raise {A} msg.

Definition raises {A : Type} (r : result A) : bool :=
  match r with Ok _ => false | Raise _ => true end.

(** [enumerate(x)] *)
Definition enumerate (x : array) : list (nat * R) :=
  combine (seq 0 (List.length x)) x.

(** [a[i] = v] for an index inside the array (the loops below only write at
    indices of [enumerate(x)] into arrays made by [zeros_like(x)]). *)
Fixpoint set_nth (i : nat) (v : R) (a : array) : array :=
  match a, i with
  | [], _ => []
  | _ :: a', O => v :: a'
  | u :: a', S j => u :: set_nth j v a'
  end.

(** ** Transmitted wave

    [g] holds the module-level variables read by [X], [T], [Z_fun],
    [Z_prime] and [t_r]; [q] holds the arguments of [make_trans_fcn], which
    shadow the module-level names inside [transmitted_wave].  The notebook
    always calls [make_trans_fcn] with the current module-level values. *)

Module Trans.
Section MakeTransFcn.

Context (g : Params) {quadrature : Integrate}.
Variable q : Params.

Section TransmittedWave.

Variable w : R.

Definition t_w : R := w / c_l q.

(** First transmitted characteristics (no reflections). *)
Definition T0 (t w : R) : R :=
  let x_init := (t - t_r g) * (- c_l q) in
  (x_init <? x_0 q) * (x_init >? - w) * sqrt (Z_r q / Z_l q).

(** Lower limit of integration in x1 (defined in the source, never called). *)
Definition T2_alpha2 (t : R) : R :=
  (t <? 3 * t_r g + t_w) * X g ((t - t_r g - t_w) / 2).

(** Lower limit of integration for x2 (defined in the source, never called). *)
Definition T2_gamma2 (t x1 : R) : R :=
  let T1 := T g x1 in
  (t <? t_r g + 2 * T1) * X g (T1 - (t - t_r g) / 2) + 0 * t.

Definition T2_integrand (t x1 : R) : R :=
  let x2_lower := X g (T g x1 - (t - t_r g) / 2) in
  let x2_upper := X g (T g x1 - (t - t_r g - t_w) / 2) in
  (- Z_prime g x1) / (4 * Z_fun g x1)
  * (ln (Z_fun g (Rmin x2_upper x1)) - ln (Z_fun g (Rmin x2_lower x1))).

(** Twice-reflected waves. *)
Definition T2 (t : R) : R :=
  if (t <? t_r g) || (t >? 3 * t_r g + t_w) then 0
  else Rpower (Z_r q / Z_l q) (1 / 2) * quad (T2_integrand t) 0 (x_r q).

Definition T4_integrand4 (t x_3 x_2 x_1 : R) : R :=
  let x4_lower := X g (T g x_1 + T g x_3 - T g x_2 - (t - t_r g) / 2) in
  let x4_upper := X g (T g x_1 + T g x_3 - T g x_2 - (t - t_r g - t_w) / 2) in
  (- Z_prime g x_1) * Z_prime g x_2 * Z_prime g x_3 / 16
  * ln (Z_fun g (Rmin x4_lower x_3) / Z_fun g (Rmin x4_upper x_3))
  / (Z_fun g x_1 * Z_fun g x_2 * Z_fun g x_3).

Definition zerofun (x : R) : R := 0.
Definition identity (x_1 : R) : R := x_1.
Definition identity2 (x_1 x_2 : R) : R := x_2.
Definition x_r_fun (x_1 x_2 : R) : R := x_r q.

(** Four-times reflected waves. *)
Definition T4 (t : R) : R :=
  if (t <? t_r g) || (t >? 5 * t_r g + t_w) then 0
  else Rpower (Z_r q / Z_l q) (1 / 2)
       * tplquad (T4_integrand4 t) 0 (x_r q) zerofun identity identity2 x_r_fun.

(** Elapsed causal time at the output point [xx]: [t-(xx-x_r)/c_r]. *)
Definition causal_time (t xx : R) : R := t - (xx - x_r q) / c_r q.

(** One pass of [for i, xx in enumerate(x)] over the pair [(T_2, T_4)]. *)
Definition loop_body (t : R) (N : Z) (st : array * array) (ixx : nat * R)
  : array * array :=
  let (i, xx) := ixx in
  let tt := causal_time t xx in
  let T_2 := if (tt >? t_r g) && (tt <? 3 * t_r g + t_w)
             then set_nth i (T2 tt) (fst st) else fst st in
  let T_4 := if (tt >? t_r g) && (tt <? 5 * t_r g + t_w) && (N >=? 4)%Z
             then set_nth i (T4 tt) (snd st) else snd st in
  (T_2, T_4).

(** The arrays [T_0], [T_2], [T_4] as they stand at the [return]. *)
Definition terms (x : array) (t : R) (N : Z) : array * array * array :=
  let T_0 := vmap (fun xx => T0 (causal_time t xx) w) x in
  let T_2 := zeros_like x in
  let T_4 := zeros_like x in
  let st := if (N >=? 2)%Z
            then fold_left (loop_body t N) (enumerate x) (T_2, T_4)
            else (T_2, T_4) in
  (T_0, fst st, snd st).

(** What the loop leaves in [T_2[i]] and [T_4[i]] for the point [xx = x[i]]
    (lemma [trans_terms_entries]). *)
Definition T_2_at (t : R) (N : Z) (xx : R) : R :=
  let tt := causal_time t xx in
  if (N >=? 2)%Z && ((tt >? t_r g) && (tt <? 3 * t_r g + t_w))
  then T2 tt else 0.

Definition T_4_at (t : R) (N : Z) (xx : R) : R :=
  let tt := causal_time t xx in
  if (N >=? 2)%Z && ((tt >? t_r g) && (tt <? 5 * t_r g + t_w) && (N >=? 4)%Z)
  then T4 tt else 0.

End TransmittedWave.

(** [transmitted_wave(x,t,w=1.,N=2)] *)
Definition transmitted_wave (x : array) (t w : R) (N : Z) : result array :=
  if (N >? 4)%Z
  then Raise "Transmitted terms beyond N=4 have not been coded."%string
  else
    let '(T_0, T_2, T_4) := terms w x t N in
    Ok (vmul (vmap (fun xx => b2r (xx >? x_r q)) x)
             (vadd (vadd T_0 T_2) T_4)).

End MakeTransFcn.
End Trans.

(** ** Reflected wave

    [g] and [q] as for the transmitted wave: [q] holds the arguments of
    [make_refl_fcn]. *)

Module Refl.
Section MakeReflFcn.

Context (g : Params) {quadrature : Integrate}.
Variable q : Params.

Section ReflectedWave.

Variable w : R.

Definition t_w : R := w / c_l q.

(** Lower and upper limits of integration for the first reflections. *)
Definition alpha (t : R) : R :=
  (t <? w / c_l q) * 0 + (t <? 2 * t_r g + t_w) * X g ((t - t_w) / 2).

Definition beta (t : R) : R :=
  (t <? 2 * t_r g) * X g (t / 2)
  + (t >? 2 * t_r g) * (t <? 2 * t_r g + t_w) * x_r q.

(** Amplitude of first reflections at x=0 as a function of time. *)
Definition R_1 (t : R) : R :=
  (t >? 0) * 0.5 * ln (Z_fun g (beta t) / Z_fun g (alpha t)).

Definition R3_integrand (t x2 x1 : R) : R :=
  let x3_upper := X g (t / 2 - T g x1 + T g x2) in
  let x3_lower := X g ((t - t_w) / 2 + T g x2 - T g x1) in
  Z_prime g x1 * Z_prime g x2 / 8
  * ln (Z_fun g (Rmax x2 x3_lower) / Z_fun g (Rmax x2 x3_upper))
  / (Z_fun g x1 * Z_fun g x2).

Definition zerofun (x1 : R) : R := 0.
Definition identity (x1 : R) : R := x1.

(** Thrice-reflected waves. *)
Definition R3 (t : R) : R :=
  if t >? 4 * t_r g + t_w then 0
  else
    let b := X g (t / 2) in
    dblquad (R3_integrand t) 0 b zerofun identity.

(** Elapsed causal time at the output point [xx]: [t+xx/c_l]. *)
Definition causal_time (t xx : R) : R := t + xx / c_l q.

(** One pass of [for i, xx in enumerate(x)] over [R_3]. *)
Definition loop_body (t : R) (R_3 : array) (ixx : nat * R) : array :=
  let (i, xx) := ixx in
  let tt := causal_time t xx in
  set_nth i (R3 tt) R_3.

(** The array [R_3] as it stands at the [return]. *)
Definition terms (x : array) (t : R) (N : Z) : array :=
  let R_3 := zeros_like x in
  if (N >=? 3)%Z then fold_left (loop_body t) (enumerate x) R_3 else R_3.

(** What the loop leaves in [R_3[i]] for the point [xx = x[i]]
    (lemma [refl_terms_entries]). *)
Definition R_3_at (t : R) (N : Z) (xx : R) : R :=
  if (N >=? 3)%Z then R3 (causal_time t xx) else 0.

End ReflectedWave.

(** [reflected_wave(x,t,w=1.,N=3)] *)
Definition reflected_wave (x : array) (t w : R) (N : Z) : result array :=
  if (N >? 4)%Z
  then Raise "Reflection terms beyond n=3 have not been coded."%string
  else
    let R_3 := terms w x t N in
    Ok (vmul (vmap (fun xx => b2r (xx <? x_0 q)) x)
             (vadd (vmap (fun xx => R_1 w (causal_time t xx)) x) R_3)).

End MakeReflFcn.
End Refl.

(** ** Reference-solution driver: the data [setup] hands to the solver

    [setup(mx, w, Z_l, Z_r, c_l, c_r, x_0, x_r, oscillate)] builds the
    PyClaw controller; what is modelled here is the data it computes itself
    from the cell centres [xc]: the auxiliary arrays [Z] and [c], the
    initial pressure and velocity, the ends of the domain and the final
    time.  [q] holds the keyword arguments (which shadow the module-level
    names), [g] the module-level variables read for [t_r].  The grid, the
    solver and the controller belong to PyClaw.  Row 0 of [state.q], read
    by the velocity line, is the pressure row. *)

Module Setup.
Section Setup.

Variable g : Params.
Variable w : R.
Variable q : Params.

(** [xlower=x_0-x_r*6; xupper=x_0+x_r*3] *)
Definition xlower : R := x_0 q - x_r q * 6.
Definition xupper : R := x_0 q + x_r q * 3.

(** The entry of [Z] at the cell centre [x]. *)
Definition Z_at (x : R) : R :=
  let Z :=
    if Req_dec_T (x_r q - x_0 q) 0
    then Z_l q * (x <? x_0 q) + Z_r q * (x >=? x_r q)
    else Z_l q * (x <? x_0 q) + Z_r q * (x >? x_r q)
         + (Z_l q + (Z_r q - Z_l q) * (x - x_0 q) / (x_r q - x_0 q))
           * (x >=? x_0 q) * (x <=? x_r q) in
  if Req_dec_T (oscillate q) 0 then Z
  else Z + oscillate q * (x >? x_0 q) * (x <? x_r q) * sin (10 * PI * x).

(** The entry of [c] at the cell centre [x]. *)
Definition c_at (x : R) : R :=
  if Req_dec_T (x_r q - x_0 q) 0
  then c_l q * (x <? x_0 q) + c_r q * (x >=? x_r q)
  else c_l q * (x <? x_0 q) + c_r q * (x >? x_r q)
       + (c_l q + (c_r q - c_l q) * (x - x_0 q) / (x_r q - x_0 q))
         * (x >=? x_0 q) * (x <=? x_r q).

Definition Z (xc : array) : array := vmap Z_at xc.
Definition c (xc : array) : array := vmap c_at xc.

(** [state.q[pressure,:] = (xc>x_0-w)*(xc<x_0)] *)
Definition pressure (xc : array) : array :=
  vmap (fun x => (x >? x_0 q - w) * (x <? x_0 q)) xc.

(** [state.q[velocity,:] = state.q[0,:]/Z] *)
Definition velocity (xc : array) : array :=
  vmap2 Rdiv (pressure xc) (Z xc).

(** [claw.tfinal =  3.*t_r] *)
Definition tfinal : R := 3 * t_r g.

End Setup.
End Setup.

(** ** The comparison cells

    [reflected_wave(x,t,w,N=N) + transmitted_wave(x,t,w,N=N)], and the same
    with [1*(x<x_0)] added for the long pulse.  Both evaluators were made
    from the module-level variables [p]; the left operand is evaluated
    first, so its exception is the one that propagates. *)

Module Driver.
Section Driver.

Context (p : Params) {quadrature : Integrate}.

Definition wave (x : array) (t w : R) (N : Z) : result array :=
  match Refl.reflected_wave p p x t w N with
  | Raise msg => Raise msg
  | Ok r =>
      match Trans.transmitted_wave p p x t w N with
      | Raise msg => Raise msg
      | Ok tr => Ok (vadd r tr)
      end
  end.

Definition wave_with_incident (x : array) (t w : R) (N : Z) : result array :=
  match wave x t w N with
  | Raise msg => Raise msg
  | Ok v => Ok (vadd v (vmap (fun xx => 1 * (xx <? x_0 p)) x))
  end.

End Driver.
End Driver.

(** ** Concrete instances *)

(** The parameters of Figure 8(a). *)
Definition fig8a : Params :=
  {| c_l := 2; c_r := 1; Z_l := 1 / 2; Z_r := 1;
     x_0 := 0; x_r := 1; oscillate := 0 |}.

(** A slope lying to the right of a shifted origin: x_0 = -1, x_r = 1. *)
Definition shifted : Params :=
  {| c_l := 1; c_r := 3; Z_l := 1; Z_r := 2;
     x_0 := -1; x_r := 1; oscillate := 0 |}.

(** A slope lying entirely to the left of the origin: x_0 = -2, x_r = -1. *)
Definition behind : Params :=
  {| c_l := 2; c_r := 3; Z_l := 1; Z_r := 2;
     x_0 := -2; x_r := -1; oscillate := 0 |}.

(** A sharp interface at the origin (x_r = x_0), as [setup] accepts it. *)
Definition sharp_interface : Params :=
  {| c_l := 1; c_r := 1; Z_l := 1; Z_r := 2;
     x_0 := 0; x_r := 0; oscillate := 0 |}.

(** One-point (midpoint) rules, a simple instance of [Integrate]. *)
Definition midpoint_quad (f : R -> R) (a b : R) : R :=
  (b - a) * f ((a + b) / 2).

Definition midpoint_dblquad (f : R -> R -> R) (a b : R) (gfun hfun : R -> R)
  : R :=
  midpoint_quad (fun x => midpoint_quad (fun y => f y x) (gfun x) (hfun x)) a b.

Definition midpoint_tplquad (f : R -> R -> R -> R) (a b : R)
  (gfun hfun : R -> R) (qfun rfun : R -> R -> R) : R :=
  midpoint_quad
    (fun x => midpoint_quad
       (fun y => midpoint_quad (fun z => f z y x) (qfun x y) (rfun x y))
       (gfun x) (hfun x)) a b.

#[local] Instance midpoint : Integrate :=
  {| quad := midpoint_quad; dblquad := midpoint_dblquad;
     tplquad := midpoint_tplquad |}.

(** ** Comparison lemmas *)

Lemma Rltb_true (x y : R) : x < y -> (x <? y) = true.
Proof. unfold Rltb. destruct (Rlt_dec x y); [reflexivity | contradiction]. Qed.

Lemma Rltb_false (x y : R) : y <= x -> (x <? y) = false.
Proof. unfold Rltb. destruct (Rlt_dec x y); [lra | reflexivity]. Qed.

Lemma Rleb_true (x y : R) : x <= y -> (x <=? y) = true.
Proof. unfold Rleb. destruct (Rle_dec x y); [reflexivity | contradiction]. Qed.

Lemma Rleb_false (x y : R) : y < x -> (x <=? y) = false.
Proof. unfold Rleb. destruct (Rle_dec x y); [lra | reflexivity]. Qed.

Lemma Rgtb_true (x y : R) : y < x -> (x >? y) = true.
Proof. apply Rltb_true. Qed.

Lemma Rgtb_false (x y : R) : x <= y -> (x >? y) = false.
Proof. apply Rltb_false. Qed.

Lemma Rgeb_true (x y : R) : y <= x -> (x >=? y) = true.
Proof. apply Rleb_true. Qed.

Lemma Rgeb_false (x y : R) : x < y -> (x >=? y) = false.
Proof. apply Rleb_false. Qed.

Lemma Rltb_spec (x y : R) : reflect (x < y) (x <? y).
Proof. unfold Rltb. destruct (Rlt_dec x y); constructor; assumption. Qed.

Lemma Rleb_spec (x y : R) : reflect (x <= y) (x <=? y).
Proof. unfold Rleb. destruct (Rle_dec x y); constructor; assumption. Qed.

(** Decide every comparison occurring in the goal and simplify the
    resulting 0/1 factors. *)
Ltac np_cases :=
  unfold Rgtb, Rgeb, Rltb, Rleb in *;
  repeat match goal with
         | |- context [Rlt_dec ?a ?b] => destruct (Rlt_dec a b)
         | |- context [Rle_dec ?a ?b] => destruct (Rle_dec a b)
         end;
  cbn [b2r andb orb negb].

(** ** The three pieces of the profile *)

Section ProfileFacts.

Variable p : Params.

Lemma c_fun_left (x : R) : x_0 p <= x_r p -> x < x_0 p -> c_fun p x = c_l p.
Proof. intros Hg Hx. unfold c_fun. np_cases; lra. Qed.

Lemma c_fun_right (x : R) : x_0 p <= x_r p -> x_r p < x -> c_fun p x = c_r p.
Proof. intros Hg Hx. unfold c_fun. np_cases; lra. Qed.

Lemma c_fun_mid (x : R) :
  x_0 p <= x <= x_r p -> c_fun p x = c_l p + s p * (x - x_0 p).
Proof. intros Hx. unfold c_fun. np_cases; lra. Qed.

Lemma Z_fun_left (x : R) : x_0 p <= x_r p -> x < x_0 p -> Z_fun p x = Z_l p.
Proof. intros Hg Hx. unfold Z_fun. np_cases; lra. Qed.

Lemma Z_fun_right (x : R) : x_0 p <= x_r p -> x_r p < x -> Z_fun p x = Z_r p.
Proof. intros Hg Hx. unfold Z_fun. np_cases; lra. Qed.

Lemma Z_fun_mid (x : R) :
  oscillate p = 0 ->
  x_0 p <= x <= x_r p -> Z_fun p x = Z_l p + sZ p * (x - x_0 p).
Proof. intros Ho Hx. unfold Z_fun. rewrite Ho. np_cases; lra. Qed.

Lemma s_slope : x_0 p < x_r p -> c_l p + s p * (x_r p - x_0 p) = c_r p.
Proof. intros Hg. unfold s. field. lra. Qed.

Lemma sZ_slope : x_0 p < x_r p -> Z_l p + sZ p * (x_r p - x_0 p) = Z_r p.
Proof. intros Hg. unfold sZ. field. lra. Qed.

End ProfileFacts.

(** ** Arrays: elementwise operations and the assignment loops *)

Lemma vmap2_map (f : R -> R -> R) (a b : R -> R) (x : array) :
  vmap2 f (vmap a x) (vmap b x) = vmap (fun xx => f (a xx) (b xx)) x.
Proof.
  unfold vmap. induction x as [|xx x IH]; cbn; [reflexivity|].
  now rewrite IH.
Qed.

Lemma vadd_map (a b : R -> R) (x : array) :
  vadd (vmap a x) (vmap b x) = vmap (fun xx => a xx + b xx) x.
Proof. apply vmap2_map. Qed.

Lemma vmul_map (a b : R -> R) (x : array) :
  vmul (vmap a x) (vmap b x) = vmap (fun xx => a xx * b xx) x.
Proof. apply vmap2_map. Qed.

Lemma vmap_ext (f h : R -> R) (x : array) :
  (forall xx, f xx = h xx) -> vmap f x = vmap h x.
Proof. intros E. apply map_ext. exact E. Qed.

Lemma vmap_length (f : R -> R) (x : array) :
  List.length (vmap f x) = List.length x.
Proof. apply length_map. Qed.

Lemma vmap_nth_error (f : R -> R) (x : array) (i : nat) :
  nth_error (vmap f x) i = option_map f (nth_error x i).
Proof. apply nth_error_map. Qed.

(** Writing at the position just after a prefix. *)
Lemma set_nth_app (pre a : array) (u v : R) :
  set_nth (List.length pre) v (pre ++ u :: a) = pre ++ v :: a.
Proof.
  induction pre as [|h pre IH]; cbn; [reflexivity|].
  now rewrite IH.
Qed.

Lemma app_cons_assoc (pre a : array) (v : R) :
  pre ++ v :: a = (pre ++ [v]) ++ a.
Proof. now rewrite <- app_assoc. Qed.

Lemma length_snoc (pre : array) (v : R) :
  List.length (pre ++ [v]) = S (List.length pre).
Proof. rewrite length_app. cbn. lia. Qed.

(** A loop that overwrites entry [i] with [f xx] for every [(i, xx)] of
    [enumerate(x)] leaves the array [map f x]. *)
Lemma fold_assign_all (f : R -> R) (xs pre a : array) :
  List.length a = List.length xs ->
  fold_left (fun acc (ixx : nat * R) => let (i, xx) := ixx in set_nth i (f xx) acc)
            (combine (seq (List.length pre) (List.length xs)) xs) (pre ++ a)
  = pre ++ vmap f xs.
Proof.
  revert pre a. induction xs as [|xx xs IH]; intros pre a Hlen.
  - destruct a; [reflexivity | discriminate].
  - destruct a as [|u a]; [discriminate|]. cbn in Hlen.
    cbn [List.length seq combine fold_left]. cbv beta iota.
    rewrite set_nth_app, app_cons_assoc.
    rewrite <- (length_snoc pre (f xx)).
    rewrite IH by lia.
    now rewrite <- app_cons_assoc.
Qed.

(** The same for a loop that writes two arrays, each under its own guard. *)
Lemma fold_assign_guarded
  (c2 c4 : R -> bool) (f2 f4 : R -> R) (xs pre2 pre4 a2 a4 : array) :
  List.length pre2 = List.length pre4 ->
  List.length a2 = List.length xs ->
  List.length a4 = List.length xs ->
  fold_left
    (fun (st : array * array) (ixx : nat * R) =>
       let (i, xx) := ixx in
       (if c2 xx then set_nth i (f2 xx) (fst st) else fst st,
        if c4 xx then set_nth i (f4 xx) (snd st) else snd st))
    (combine (seq (List.length pre2) (List.length xs)) xs)
    (pre2 ++ a2, pre4 ++ a4)
  = (pre2 ++ vmap2 (fun xx u => if c2 xx then f2 xx else u) xs a2,
     pre4 ++ vmap2 (fun xx u => if c4 xx then f4 xx else u) xs a4).
Proof.
  revert pre2 pre4 a2 a4.
  induction xs as [|xx xs IH]; intros pre2 pre4 a2 a4 Hp H2 H4.
  - destruct a2, a4; try discriminate. reflexivity.
  - destruct a2 as [|u2 a2]; [discriminate|].
    destruct a4 as [|u4 a4]; [discriminate|].
    cbn in H2, H4.
    cbn [List.length seq combine fold_left vmap2]. cbv beta iota.
    cbn [fst snd].
    rewrite set_nth_app.
    replace (set_nth (List.length pre2) (f4 xx) (pre4 ++ u4 :: a4))
      with (pre4 ++ f4 xx :: a4) by (rewrite Hp; symmetry; apply set_nth_app).
    set (v2 := if c2 xx then f2 xx else u2).
    set (v4 := if c4 xx then f4 xx else u4).
    match goal with
    | |- fold_left _ _ (?A, ?B) = _ =>
        replace A with ((pre2 ++ [v2]) ++ a2)
          by (unfold v2; rewrite <- app_cons_assoc; now destruct (c2 xx));
        replace B with ((pre4 ++ [v4]) ++ a4)
          by (unfold v4; rewrite <- app_cons_assoc; now destruct (c4 xx))
    end.
    rewrite <- (length_snoc pre2 v2).
    etransitivity;
      [ apply (IH (pre2 ++ [v2]) (pre4 ++ [v4]) a2 a4);
        rewrite ?length_snoc; lia | ].
    now rewrite <- !app_cons_assoc.
Qed.

Lemma vmap2_zeros (c : R -> bool) (f : R -> R) (x : array) :
  vmap2 (fun xx u => if c xx then f xx else u) x (zeros_like x)
  = vmap (fun xx => if c xx then f xx else 0) x.
Proof.
  unfold zeros_like, vmap. induction x as [|xx x IH]; cbn; [reflexivity|].
  now rewrite IH.
Qed.

(** ** The arrays built by the two evaluators, entry by entry *)

Lemma Zgtb_false (n m : Z) : (n <= m)%Z -> (n >? m)%Z = false.
Proof. intros H. rewrite Z.gtb_ltb. apply Z.ltb_ge. exact H. Qed.

Lemma Zgtb_true (n m : Z) : (m < n)%Z -> (n >? m)%Z = true.
Proof. intros H. rewrite Z.gtb_ltb. apply Z.ltb_lt. exact H. Qed.

Lemma Zgeb_false (n m : Z) : (n < m)%Z -> (n >=? m)%Z = false.
Proof. intros H. rewrite Z.geb_leb. apply Z.leb_gt. exact H. Qed.

Lemma Zgeb_true (n m : Z) : (m <= n)%Z -> (n >=? m)%Z = true.
Proof. intros H. rewrite Z.geb_leb. apply Z.leb_le. exact H. Qed.

Section Entries.

Context (g : Params) {quadrature : Integrate} (q : Params).

Lemma enumerate_nil_prefix (x : array) :
  enumerate x = combine (seq (List.length (@nil R)) (List.length x)) x.
Proof. reflexivity. Qed.

Lemma trans_terms_entries (w : R) (x : array) (t : R) (N : Z) :
  Trans.terms g q w x t N
  = (vmap (fun xx => Trans.T0 g q (Trans.causal_time q t xx) w) x,
     vmap (Trans.T_2_at g q w t N) x,
     vmap (Trans.T_4_at g q w t N) x).
Proof.
  unfold Trans.terms, Trans.T_2_at, Trans.T_4_at.
  destruct (N >=? 2)%Z; cbn [andb fst snd].
  - assert (E : fold_left (Trans.loop_body g q w t N) (enumerate x)
                 (zeros_like x, zeros_like x)
               = ([] ++ vmap2 (fun xx u =>
                     if (Trans.causal_time q t xx >? t_r g)
                        && (Trans.causal_time q t xx <? 3 * t_r g + Trans.t_w q w)
                     then Trans.T2 g q w (Trans.causal_time q t xx) else u)
                     x (zeros_like x),
                  [] ++ vmap2 (fun xx u =>
                     if (Trans.causal_time q t xx >? t_r g)
                        && (Trans.causal_time q t xx <? 5 * t_r g + Trans.t_w q w)
                        && (N >=? 4)%Z
                     then Trans.T4 g q w (Trans.causal_time q t xx) else u)
                     x (zeros_like x))).
    { rewrite enumerate_nil_prefix.
      apply (fold_assign_guarded
               (fun xx => (Trans.causal_time q t xx >? t_r g)
                          && (Trans.causal_time q t xx <? 3 * t_r g + Trans.t_w q w))
               (fun xx => (Trans.causal_time q t xx >? t_r g)
                          && (Trans.causal_time q t xx <? 5 * t_r g + Trans.t_w q w)
                          && (N >=? 4)%Z)
               (fun xx => Trans.T2 g q w (Trans.causal_time q t xx))
               (fun xx => Trans.T4 g q w (Trans.causal_time q t xx))
               x [] [] (zeros_like x) (zeros_like x));
      [reflexivity | apply vmap_length | apply vmap_length]. }
    rewrite E.
    cbn [fst snd app]. now rewrite !vmap2_zeros.
  - reflexivity.
Qed.

Lemma refl_terms_entries (w : R) (x : array) (t : R) (N : Z) :
  Refl.terms g q w x t N = vmap (Refl.R_3_at g q w t N) x.
Proof.
  unfold Refl.terms, Refl.R_3_at.
  destruct (N >=? 3)%Z; [|reflexivity].
  rewrite enumerate_nil_prefix.
  change (zeros_like x) with ([] ++ zeros_like x).
  apply (fold_assign_all (fun xx => Refl.R3 g q w (Refl.causal_time q t xx))
                         x [] (zeros_like x)).
  apply vmap_length.
Qed.

(** The value returned for an accepted order, as one elementwise formula. *)
Lemma transmitted_wave_accepted (x : array) (t w : R) (N : Z) :
  (N <= 4)%Z ->
  Trans.transmitted_wave g q x t w N
  = Ok (vmap (fun xx =>
                (xx >? x_r q)
                * (Trans.T0 g q (Trans.causal_time q t xx) w
                   + Trans.T_2_at g q w t N xx + Trans.T_4_at g q w t N xx)) x).
Proof.
  intros HN. unfold Trans.transmitted_wave.
  rewrite Zgtb_false by exact HN.
  rewrite trans_terms_entries.
  now rewrite !vadd_map, vmul_map.
Qed.

Lemma reflected_wave_accepted (x : array) (t w : R) (N : Z) :
  (N <= 4)%Z ->
  Refl.reflected_wave g q x t w N
  = Ok (vmap (fun xx =>
                (xx <? x_0 q)
                * (Refl.R_1 g q w (Refl.causal_time q t xx)
                   + Refl.R_3_at g q w t N xx)) x).
Proof.
  intros HN. unfold Refl.reflected_wave.
  rewrite Zgtb_false by exact HN.
  rewrite refl_terms_entries.
  now rewrite vadd_map, vmul_map.
Qed.

Lemma transmitted_wave_rejected (x : array) (t w : R) (N : Z) :
  (4 < N)%Z ->
  Trans.transmitted_wave g q x t w N
  = Raise "Transmitted terms beyond N=4 have not been coded."%string.
Proof.
  intros HN. unfold Trans.transmitted_wave.
  now rewrite Zgtb_true by exact HN.
Qed.

Lemma reflected_wave_rejected (x : array) (t w : R) (N : Z) :
  (4 < N)%Z ->
  Refl.reflected_wave g q x t w N
  = Raise "Reflection terms beyond n=3 have not been coded."%string.
Proof.
  intros HN. unfold Refl.reflected_wave.
  now rewrite Zgtb_true by exact HN.
Qed.

End Entries.

(** ** Truncation order: which orders are accepted *)

(** C1 (as stated, refuted at order 4).  The claim has [reflected_wave]
    raise for every order beyond 3; the guard in the source is [N>4], so the
    order 4 -- which the notebook itself requests for its "Up to 4
    reflections" curves -- is accepted. *)
Lemma reflected_wave_accepts_order_4 :
  (3 < 4)%Z /\ raises (Refl.reflected_wave fig8a fig8a [-1] 1 1 4) = false.
Proof. split; [lia | reflexivity]. Qed.

(** C1 (amended).  For every position array, time and pulse width, each of
    the two evaluators raises exactly when the requested order [N] exceeds 4;
    every order up to and including 4 is accepted by both. *)
Theorem waves_raise_iff_order_above_4
  (g : Params) (quadrature : Integrate) (q : Params)
  (x : array) (t w : R) (N : Z) :
  (raises (Refl.reflected_wave g q x t w N) = true <-> (4 < N)%Z) /\
  (raises (Trans.transmitted_wave g q x t w N) = true <-> (4 < N)%Z).
Proof.
  destruct (Z_lt_le_dec 4 N) as [Hgt | Hle].
  - rewrite reflected_wave_rejected, transmitted_wave_rejected by exact Hgt.
    cbn. tauto.
  - rewrite reflected_wave_accepted, transmitted_wave_accepted by exact Hle.
    cbn. split; split; intros H; try discriminate; lia.
Qed.

(** C6.  Order 6 for the reflected wave and order 8 for the transmitted wave
    raise the documented exceptions, whatever the positions, time, pulse
    width, parameters and quadrature routine: the outcome does not depend on
    any amplitude. *)
Theorem orders_6_and_8_raise
  (g : Params) (quadrature : Integrate) (q : Params) (x : array) (t w : R) :
  Refl.reflected_wave g q x t w 6
  = Raise "Reflection terms beyond n=3 have not been coded."%string
  /\ Trans.transmitted_wave g q x t w 8
     = Raise "Transmitted terms beyond N=4 have not been coded."%string.
Proof. split; reflexivity. Qed.

(** ** Orders between the coded thresholds *)

(** C10.  [reflected_wave] at order 4 returns the array of order 3, namely
    R_1 + R_3 on the left region; [transmitted_wave] at order 3 returns the
    array of order 2, namely T_0 + T_2 (with T_2 inside its window) on the
    right region; at orders 0, 1, 2 [reflected_wave] returns the R_1
    contribution alone, and at orders 0, 1 [transmitted_wave] returns the T_0
    contribution alone. *)
Theorem intermediate_orders_add_no_terms
  (g : Params) (quadrature : Integrate) (q : Params) (x : array) (t w : R) :
  (Refl.reflected_wave g q x t w 4 = Refl.reflected_wave g q x t w 3
   /\ Refl.reflected_wave g q x t w 3
      = Ok (vmap (fun xx =>
                    (xx <? x_0 q)
                    * (Refl.R_1 g q w (Refl.causal_time q t xx)
                       + Refl.R3 g q w (Refl.causal_time q t xx))) x))
  /\ (Trans.transmitted_wave g q x t w 3 = Trans.transmitted_wave g q x t w 2
      /\ Trans.transmitted_wave g q x t w 2
         = Ok (vmap (fun xx =>
                       (xx >? x_r q)
                       * (Trans.T0 g q (Trans.causal_time q t xx) w
                          + (if (Trans.causal_time q t xx >? t_r g)
                                && (Trans.causal_time q t xx
                                    <? 3 * t_r g + Trans.t_w q w)
                             then Trans.T2 g q w (Trans.causal_time q t xx)
                             else 0)
                          + 0)) x))
  /\ (forall N : Z, (0 <= N <= 2)%Z ->
        Refl.reflected_wave g q x t w N
        = Ok (vmap (fun xx =>
                      (xx <? x_0 q)
                      * (Refl.R_1 g q w (Refl.causal_time q t xx) + 0)) x))
  /\ (forall N : Z, (0 <= N <= 1)%Z ->
        Trans.transmitted_wave g q x t w N
        = Ok (vmap (fun xx =>
                      (xx >? x_r q)
                      * (Trans.T0 g q (Trans.causal_time q t xx) w + 0 + 0)) x)).
Proof.
  split; [split | split; [split | split]].
  - rewrite !reflected_wave_accepted by lia. reflexivity.
  - rewrite reflected_wave_accepted by lia. reflexivity.
  - rewrite !transmitted_wave_accepted by lia. reflexivity.
  - rewrite transmitted_wave_accepted by lia.
    f_equal. apply vmap_ext. intros xx.
    unfold Trans.T_2_at, Trans.T_4_at. cbn [Z.geb Z.compare Pos.compare
      Pos.compare_cont andb]. now rewrite !andb_false_r.
  - intros N HN. rewrite reflected_wave_accepted by lia.
    unfold Refl.R_3_at. now rewrite Zgeb_false by lia.
  - intros N HN. rewrite transmitted_wave_accepted by lia.
    unfold Trans.T_2_at, Trans.T_4_at. now rewrite Zgeb_false by lia.
Qed.

(** C10, at the parameters of Figure 8(a) and three sample points. *)
Lemma intermediate_orders_fig8a :
  Refl.reflected_wave fig8a fig8a [-1; 0; 2] 1 1 1
  = Ok (vmap (fun xx =>
                (xx <? x_0 fig8a)
                * (Refl.R_1 fig8a fig8a 1 (Refl.causal_time fig8a 1 xx) + 0))
             [-1; 0; 2])
  /\ Trans.transmitted_wave fig8a fig8a [-1; 0; 2] 1 1 1
     = Ok (vmap (fun xx =>
                   (xx >? x_r fig8a)
                   * (Trans.T0 fig8a fig8a (Trans.causal_time fig8a 1 xx) 1
                      + 0 + 0))
                [-1; 0; 2]).
Proof.
  destruct (intermediate_orders_add_no_terms
              fig8a midpoint fig8a [-1; 0; 2] 1 1) as (_ & _ & Hr & Ht).
  split; [apply Hr | apply Ht]; lia.
Defined.

(** ** The characteristic path and the travel time *)

(** [field], with its nonzero side conditions closed from the context. *)
Ltac field_side := field; repeat split; first [assumption | lra].

Section Characteristic.

Variable p : Params.
Hypothesis c_l_pos : 0 < c_l p.
Hypothesis s_nonzero : s p <> 0.

(** The three branches of [X]. *)
Lemma X_before (t : R) : t <= 0 -> t < t_r p -> X p t = 0.
Proof. intros H0 Hr. unfold X. np_cases; lra. Qed.

Lemma X_after (t : R) : t_r p <= t -> 0 < t -> X p t = x_r p.
Proof. intros Hr H0. unfold X. np_cases; lra. Qed.

Lemma X_inside (t : R) :
  0 < t < t_r p -> X p t = c_l p / s p * (exp (s p * t) - 1).
Proof. intros [H0 Hr]. unfold X. np_cases; lra. Qed.

(** Where both clamps fire their contributions add up. *)
Lemma X_overlap (t : R) : t_r p <= t -> t <= 0 -> X p t = x_r p.
Proof. intros Hr H0. unfold X. np_cases; lra. Qed.

(** The closed form is strictly increasing in [t]. *)
Lemma flow_increasing (t1 t2 : R) :
  t1 < t2 ->
  c_l p / s p * (exp (s p * t1) - 1) < c_l p / s p * (exp (s p * t2) - 1).
Proof.
  intros Ht.
  destruct (Rtotal_order (s p) 0) as [Hs | [Hs | Hs]]; [| contradiction |].
  - assert (Hk : c_l p / s p < 0) by (apply Rdiv_pos_neg; lra).
    assert (He : exp (s p * t2) < exp (s p * t1))
      by (apply exp_increasing; nra).
    nra.
  - assert (Hk : 0 < c_l p / s p) by (apply Rdiv_lt_0_compat; lra).
    assert (He : exp (s p * t1) < exp (s p * t2))
      by (apply exp_increasing; nra).
    nra.
Qed.

Lemma flow_at_0 : c_l p / s p * (exp (s p * 0) - 1) = 0.
Proof. rewrite Rmult_0_r, exp_0. lra. Qed.

Lemma ln_nonpos (x : R) : x <= 0 -> ln x = 0.
Proof.
  intros Hx. unfold ln.
  destruct (Rlt_dec 0 x) as [Hpos | _]; [exfalso; lra | reflexivity].
Qed.

(** A positive crossing time means that the logarithm defining it was
    taken at a positive argument. *)
Lemma log_arg_pos : 0 < t_r p -> 0 < s p * x_r p / c_l p + 1.
Proof.
  intros Ht. destruct (Rlt_dec 0 (s p * x_r p / c_l p + 1)) as [|Hn]; [assumption|].
  exfalso. unfold t_r in Ht. rewrite ln_nonpos in Ht by lra. lra.
Qed.

Lemma exp_s_t_r :
  0 < s p * x_r p / c_l p + 1 -> exp (s p * t_r p) = s p * x_r p / c_l p + 1.
Proof.
  intros Ha. unfold t_r.
  replace (s p * (1 / s p * ln (s p * x_r p / c_l p + 1)))
    with (ln (s p * x_r p / c_l p + 1)) by (field; assumption).
  now apply exp_ln.
Qed.

Lemma flow_at_t_r :
  0 < s p * x_r p / c_l p + 1 ->
  c_l p / s p * (exp (s p * t_r p) - 1) = x_r p.
Proof. intros Ha. rewrite exp_s_t_r by assumption. field. lra. Qed.

(** The logarithm's argument stays positive between 0 and [x_r]. *)
Lemma log_arg_pos_between (x : R) :
  0 < x_r p -> 0 < s p * x_r p / c_l p + 1 -> 0 <= x <= x_r p ->
  0 < s p * x / c_l p + 1.
Proof.
  intros Hxr Ha Hx.
  assert (Hi : 0 < / c_l p) by now apply Rinv_0_lt_compat.
  unfold Rdiv in *.
  destruct (Rtotal_order (s p) 0) as [Hs | [Hs | Hs]]; [| contradiction |].
  - assert (s p * x_r p <= s p * x) by nra. nra.
  - assert (0 <= s p * x) by nra. nra.
Qed.

(** [T] is strictly increasing where its logarithm is defined. *)
Lemma T_increasing (x1 x2 : R) :
  0 < s p * x1 / c_l p + 1 -> 0 < s p * x2 / c_l p + 1 ->
  x1 < x2 -> T p x1 < T p x2.
Proof.
  intros H1 H2 Hx.
  assert (Hi : 0 < / c_l p) by now apply Rinv_0_lt_compat.
  unfold T.
  destruct (Rtotal_order (s p) 0) as [Hs | [Hs | Hs]]; [| contradiction |].
  - assert (Hk : 1 / s p < 0) by (apply Rdiv_pos_neg; lra).
    assert (Hl : ln (s p * x2 / c_l p + 1) < ln (s p * x1 / c_l p + 1)).
    { apply ln_increasing; [assumption|]. unfold Rdiv.
      assert (Hm : s p * x2 < s p * x1) by nra.
      apply (Rmult_lt_compat_r (/ c_l p)) in Hm; [lra | assumption]. }
    nra.
  - assert (Hk : 0 < 1 / s p) by (apply Rdiv_lt_0_compat; lra).
    assert (Hl : ln (s p * x1 / c_l p + 1) < ln (s p * x2 / c_l p + 1)).
    { apply ln_increasing; [assumption|]. unfold Rdiv.
      assert (Hm : s p * x1 < s p * x2) by nra.
      apply (Rmult_lt_compat_r (/ c_l p)) in Hm; [lra | assumption]. }
    nra.
Qed.

Lemma T_at_0 : T p 0 = 0.
Proof.
  unfold T. replace (s p * 0 / c_l p + 1) with 1 by (field; lra).
  rewrite ln_1. lra.
Qed.

Lemma T_at_x_r : T p (x_r p) = t_r p.
Proof. reflexivity. Qed.

(** The crossing time is positive when the slope ends to the right of the
    origin and the logarithm is defined. *)
Lemma t_r_pos :
  0 < x_r p -> 0 < s p * x_r p / c_l p + 1 -> 0 < t_r p.
Proof.
  intros Hxr Ha. rewrite <- T_at_0, <- T_at_x_r.
  apply T_increasing; [| assumption | assumption].
  replace (s p * 0 / c_l p + 1) with 1 by (field; lra). lra.
Qed.

(** Travel times of points strictly inside (0, x_r). *)
Lemma T_between (x : R) :
  0 < s p * x_r p / c_l p + 1 -> 0 < x < x_r p -> 0 < T p x < t_r p.
Proof.
  intros Ha [H0 Hr].
  assert (Hxr : 0 < x_r p) by lra.
  assert (Hx : 0 < s p * x / c_l p + 1)
    by (apply log_arg_pos_between; try assumption; lra).
  split.
  - rewrite <- T_at_0. apply T_increasing; try assumption.
    apply log_arg_pos_between; try assumption; lra.
  - rewrite <- T_at_x_r. apply T_increasing; assumption.
Qed.

(** Positions reached strictly inside (0, t_r). *)
Lemma X_between (t : R) : 0 < t < t_r p -> 0 < X p t < x_r p.
Proof.
  intros Ht. rewrite X_inside by assumption.
  assert (Ha : 0 < s p * x_r p / c_l p + 1) by (apply log_arg_pos; lra).
  split.
  - rewrite <- flow_at_0. apply flow_increasing. lra.
  - rewrite <- (flow_at_t_r Ha). apply flow_increasing. lra.
Qed.

Lemma T_X (t : R) : 0 < t < t_r p -> T p (X p t) = t.
Proof.
  intros Ht. rewrite X_inside by assumption. unfold T.
  replace (s p * (c_l p / s p * (exp (s p * t) - 1)) / c_l p + 1)
    with (exp (s p * t)) by field_side.
  rewrite ln_exp. field_side.
Qed.

Lemma X_T (x : R) :
  0 < s p * x_r p / c_l p + 1 -> 0 < x < x_r p -> X p (T p x) = x.
Proof.
  intros Ha Hx.
  rewrite X_inside by now apply T_between.
  unfold T.
  replace (s p * (1 / s p * ln (s p * x / c_l p + 1)))
    with (ln (s p * x / c_l p + 1)) by (field; assumption).
  rewrite exp_ln by (apply log_arg_pos_between; try assumption; lra).
  field_side.
Qed.

(** [X] is nondecreasing on the whole line once the crossing time is
    positive. *)
Lemma X_nondecreasing (t1 t2 : R) :
  0 < t_r p -> t1 <= t2 -> X p t1 <= X p t2.
Proof.
  intros Htr Ht.
  assert (Ha : 0 < s p * x_r p / c_l p + 1) by now apply log_arg_pos.
  assert (Hxr : 0 < x_r p).
  { rewrite <- (flow_at_t_r Ha), <- flow_at_0. now apply flow_increasing. }
  destruct (Rle_dec t1 0) as [L1 | L1].
  - rewrite (X_before t1) by lra.
    destruct (Rle_dec t2 0) as [L2 | L2]; [rewrite X_before; lra|].
    destruct (Rlt_dec t2 (t_r p)) as [U2 | U2].
    + pose proof (X_between t2). lra.
    + rewrite X_after; lra.
  - destruct (Rlt_dec t1 (t_r p)) as [U1 | U1].
    + destruct (Rlt_dec t2 (t_r p)) as [U2 | U2].
      * rewrite !X_inside by lra.
        destruct (Req_dec t1 t2) as [-> | Hne]; [lra|].
        left. apply flow_increasing. lra.
      * rewrite (X_after t2) by lra. pose proof (X_between t1). lra.
    + rewrite !X_after; lra.
Qed.

Lemma X_increasing_inside (t1 t2 : R) :
  0 < t1 -> t1 < t2 -> t2 < t_r p -> X p t1 < X p t2.
Proof.
  intros H0 Ht Hr. rewrite !X_inside by lra. now apply flow_increasing.
Qed.

End Characteristic.

(** ** Facts about the sample parameters *)

Lemma fig8a_s : s fig8a = -1.
Proof. unfold s. cbn. field. Qed.

Lemma fig8a_log_arg : s fig8a * x_r fig8a / c_l fig8a + 1 = 1 / 2.
Proof. rewrite fig8a_s. cbn. field. Qed.

Lemma fig8a_c_l_pos : 0 < c_l fig8a.
Proof. cbn. lra. Qed.

Lemma fig8a_s_nonzero : s fig8a <> 0.
Proof. rewrite fig8a_s. lra. Qed.

Lemma ln_2_lt_1 : ln 2 < 1.
Proof.
  rewrite <- (ln_exp 1). apply ln_increasing; [lra|].
  pose proof (exp_ineq1 1). lra.
Qed.

Lemma ln_half : ln (1 / 2) = - ln 2.
Proof.
  replace (1 / 2) with (/ 2) by lra. apply ln_Rinv. lra.
Qed.

Lemma fig8a_t_r : t_r fig8a = ln 2.
Proof.
  unfold t_r. rewrite fig8a_log_arg, fig8a_s, ln_half. field.
Qed.

Lemma fig8a_t_r_bounds : 0 < t_r fig8a < 1.
Proof.
  rewrite fig8a_t_r. split; [| exact ln_2_lt_1].
  rewrite <- ln_1. apply ln_increasing; lra.
Qed.

Lemma shifted_s : s shifted = 1.
Proof. unfold s. cbn. field. Qed.

Lemma shifted_t_r : t_r shifted = ln 2.
Proof.
  unfold t_r. rewrite shifted_s. cbn.
  replace (1 * 1 / 1 + 1) with 2 by field. field.
Qed.

Lemma shifted_T_half : T shifted (- (1 / 2)) = - ln 2.
Proof.
  unfold T. rewrite shifted_s. cbn.
  replace (1 * - (1 / 2) / 1 + 1) with (1 / 2) by field.
  rewrite ln_half. field.
Qed.

Lemma behind_s : s behind = 1.
Proof. unfold s. cbn. field. Qed.

Lemma behind_t_r : t_r behind = - ln 2.
Proof.
  unfold t_r. rewrite behind_s. cbn.
  replace (1 * -1 / 2 + 1) with (1 / 2) by field.
  rewrite ln_half. field.
Qed.

Lemma ln_2_pos : 0 < ln 2.
Proof. rewrite <- ln_1. apply ln_increasing; lra. Qed.

(** ** Claims about [X] and [T] *)

(** C2 (as stated, refuted).  With the slope running from x_0 = -1 to
    x_r = 1 (c_l = 1, c_r = 3, so s = 1) the point x = -1/2 lies strictly
    between x_0 and x_r, its travel time T(x) = ln(1/2) is negative, and
    [X] clamps it to 0: X(T(x)) = 0, not x.  [X] and [T] measure from the
    origin 0, not from x_0. *)
Lemma X_T_not_inverse_left_of_origin :
  0 < c_l shifted /\ s shifted <> 0
  /\ x_0 shifted < - (1 / 2) < x_r shifted
  /\ X shifted (T shifted (- (1 / 2))) <> - (1 / 2).
Proof.
  assert (Hc : 0 < c_l shifted) by (cbn; lra).
  assert (Hs : s shifted <> 0) by (rewrite shifted_s; lra).
  repeat split; try assumption; try (cbn; lra).
  pose proof ln_2_pos as Hl.
  rewrite (X_before shifted).
  - lra.
  - rewrite shifted_T_half. lra.
  - rewrite shifted_T_half, shifted_t_r. lra.
Qed.

(** C2 (amended).  Under c_l > 0 and s = (c_r - c_l)/(x_r - x_0) != 0:
    for every t with 0 < t < t_r, T(X(t)) = t exactly, and X(t) lies
    strictly between 0 and x_r; and, provided the logarithm defining t_r is
    taken at a positive argument (s*x_r/c_l + 1 > 0), for every x with
    0 < x < x_r, X(T(x)) = x exactly, and T(x) lies strictly between 0 and
    t_r.  The interval for x is (0, x_r); it is the transition region
    (x_0, x_r) when x_0 = 0. *)
Theorem X_T_mutual_inverses (p : Params) :
  0 < c_l p -> s p <> 0 ->
  (forall t : R, 0 < t < t_r p -> T p (X p t) = t /\ 0 < X p t < x_r p)
  /\ (0 < s p * x_r p / c_l p + 1 ->
      forall x : R, 0 < x < x_r p -> X p (T p x) = x /\ 0 < T p x < t_r p).
Proof.
  intros Hc Hs. split.
  - intros t Ht. split; [now apply T_X | now apply X_between].
  - intros Ha x Hx. split; [now apply X_T | now apply T_between].
Qed.

Lemma X_T_mutual_inverses_fig8a :
  (0 < c_l fig8a /\ s fig8a <> 0)
  /\ T fig8a (X fig8a (t_r fig8a / 2)) = t_r fig8a / 2
  /\ X fig8a (T fig8a (1 / 2)) = 1 / 2.
Proof.
  destruct (X_T_mutual_inverses fig8a fig8a_c_l_pos fig8a_s_nonzero)
    as [Ht Hx].
  split; [split; [exact fig8a_c_l_pos | exact fig8a_s_nonzero] | split].
  - apply Ht. pose proof fig8a_t_r_bounds. lra.
  - apply Hx.
    + rewrite fig8a_log_arg. lra.
    + cbn. lra.
Defined.

(** C3 (as stated, refuted).  With the slope lying left of the origin
    (x_0 = -2, x_r = -1, c_l = 2, c_r = 3, so s = 1) the crossing time
    t_r = ln(1/2) is negative; at t = 0 both clamps fire and
    X(0) = 0 + x_r = -1, not 0. *)
Lemma X_not_clamped_to_0_when_t_r_negative :
  0 < c_l behind /\ s behind <> 0 /\ 0 <= 0 /\ X behind 0 <> 0.
Proof.
  assert (Hc : 0 < c_l behind) by (cbn; lra).
  assert (Hs : s behind <> 0) by (rewrite behind_s; lra).
  repeat split; try assumption; try lra.
  rewrite (X_overlap behind).
  - cbn. lra.
  - rewrite behind_t_r. pose proof ln_2_pos. lra.
  - lra.
Qed.

(** C3 (amended).  Under c_l > 0 and s != 0, with
    t_r = (1/s)*log(s*x_r/c_l + 1): X(t) = x_r for every t >= t_r, as
    stated; and X(t) = 0 for every t <= 0 that lies before the crossing
    time (t < t_r), hence for every t <= 0 whenever t_r > 0. *)
Theorem X_clamps (p : Params) :
  0 < c_l p -> s p <> 0 ->
  (forall t : R, t_r p <= t -> X p t = x_r p)
  /\ (forall t : R, t <= 0 -> t < t_r p -> X p t = 0)
  /\ (0 < t_r p -> forall t : R, t <= 0 -> X p t = 0).
Proof.
  intros _ _. split; [| split].
  - intros t Ht. unfold X. np_cases; lra.
  - intros t H0 Hr. now apply X_before.
  - intros Htr t H0. apply X_before; lra.
Qed.

Lemma X_clamps_fig8a :
  (0 < c_l fig8a /\ s fig8a <> 0 /\ 0 < t_r fig8a)
  /\ X fig8a 1 = x_r fig8a /\ X fig8a (-1) = 0 /\ X fig8a 0 = 0.
Proof.
  pose proof fig8a_t_r_bounds as Hb.
  destruct (X_clamps fig8a fig8a_c_l_pos fig8a_s_nonzero)
    as (Hr & H0 & Hall).
  split;
    [split; [exact fig8a_c_l_pos | split; [exact fig8a_s_nonzero | apply Hb]] |].
  split; [apply Hr; lra | split].
  - apply H0; lra.
  - apply (Hall (proj1 Hb)). lra.
Defined.

(** C5 (as stated, refuted).  At the same parameters (t_r = ln(1/2) < 0):
    X(0) = -1 rather than 0, and X(-1) = 0 > X(0), so [X] is not
    nondecreasing. *)
Lemma X_not_monotone_when_t_r_negative :
  0 < c_l behind /\ s behind <> 0
  /\ X behind 0 <> 0
  /\ -1 <= 0 /\ X behind 0 < X behind (-1).
Proof.
  assert (Hc : 0 < c_l behind) by (cbn; lra).
  assert (Hs : s behind <> 0) by (rewrite behind_s; lra).
  pose proof ln_2_pos as Hp. pose proof ln_2_lt_1 as Hl.
  assert (E0 : X behind 0 = -1).
  { rewrite (X_overlap behind); [reflexivity | rewrite behind_t_r; lra | lra]. }
  assert (E1 : X behind (-1) = 0).
  { apply X_before; [lra | rewrite behind_t_r; lra]. }
  repeat split; try assumption; try lra.
Qed.

(** C5 (amended).  Under c_l > 0 and s != 0, with
    t_r = (1/s)*log(s*x_r/c_l + 1): X(t_r) = x_r and [X] is strictly
    increasing on (0, t_r), as stated; and, when the crossing time is
    positive (t_r > 0), X(0) = 0 and [X] is nondecreasing on all reals. *)
Theorem X_endpoints_and_monotone (p : Params) :
  0 < c_l p -> s p <> 0 ->
  X p (t_r p) = x_r p
  /\ (forall t1 t2 : R, 0 < t1 -> t1 < t2 -> t2 < t_r p -> X p t1 < X p t2)
  /\ (0 < t_r p ->
      X p 0 = 0 /\ forall t1 t2 : R, t1 <= t2 -> X p t1 <= X p t2).
Proof.
  intros Hc Hs. split; [| split].
  - unfold X. np_cases; lra.
  - intros t1 t2. now apply X_increasing_inside.
  - intros Htr. split.
    + apply X_before; lra.
    + intros t1 t2. now apply X_nondecreasing.
Qed.

Lemma X_endpoints_and_monotone_fig8a :
  (0 < c_l fig8a /\ s fig8a <> 0 /\ 0 < t_r fig8a)
  /\ X fig8a (t_r fig8a) = x_r fig8a
  /\ X fig8a (t_r fig8a / 3) < X fig8a (t_r fig8a / 2)
  /\ X fig8a 0 = 0
  /\ X fig8a (-1) <= X fig8a 2.
Proof.
  pose proof fig8a_t_r_bounds as Hb.
  destruct (X_endpoints_and_monotone fig8a fig8a_c_l_pos fig8a_s_nonzero)
    as (Hr & Hi & Hpos).
  destruct (Hpos (proj1 Hb)) as [H0 Hm].
  split;
    [split; [exact fig8a_c_l_pos | split; [exact fig8a_s_nonzero | apply Hb]] |].
  split; [exact Hr | split; [apply Hi; lra | split; [exact H0 | apply Hm; lra]]].
Defined.

(** The crossing time is positive exactly when the slope ends to the right
    of the origin and the logarithm is taken at a positive argument. *)
Lemma t_r_pos_iff (p : Params) :
  0 < c_l p -> s p <> 0 ->
  (0 < t_r p <-> 0 < x_r p /\ 0 < s p * x_r p / c_l p + 1).
Proof.
  intros Hc Hs. split.
  - intros Ht. assert (Ha := log_arg_pos p Ht). split; [|exact Ha].
    destruct (Rtotal_order (x_r p) 0) as [Hx | [Hx | Hx]]; [| | exact Hx].
    + exfalso.
      assert (Hlt : T p (x_r p) < T p 0).
      { apply T_increasing; try assumption.
        replace (s p * 0 / c_l p + 1) with 1 by field_side. lra. }
      rewrite T_at_0, T_at_x_r in Hlt by assumption. lra.
    + exfalso. rewrite <- T_at_x_r, Hx, T_at_0 in Ht by assumption. lra.
  - intros [Hx Ha]. now apply t_r_pos.
Qed.

(** ** Claims about the material profile *)

(** A function bounded near [a] by a multiple of the distance to [a] is
    continuous at [a]. *)
Lemma lipschitz_near_continuity_pt (f : R -> R) (a k d : R) :
  0 < d ->
  (forall x : R, Rabs (x - a) < d -> Rabs (f x - f a) <= k * Rabs (x - a)) ->
  continuity_pt f a.
Proof.
  intros Hd Hb eps Heps.
  set (K := Rabs k + 1).
  assert (HK : 0 < K) by (unfold K; pose proof (Rabs_pos k); lra).
  exists (Rmin d (eps / K)). split.
  - apply Rmin_glb_lt; [exact Hd | now apply Rdiv_lt_0_compat].
  - intros x [_ Hx]. cbn in Hx |- *. unfold R_dist in *.
    assert (Hxd : Rabs (x - a) < d)
      by (eapply Rlt_le_trans; [exact Hx | apply Rmin_l]).
    assert (Hxe : Rabs (x - a) < eps / K)
      by (eapply Rlt_le_trans; [exact Hx | apply Rmin_r]).
    specialize (Hb x Hxd).
    pose proof (Rabs_pos (x - a)) as Hp.
    pose proof (Rle_abs k) as Hk.
    assert (Hm : K * Rabs (x - a) < eps).
    { apply (Rmult_lt_compat_l K) in Hxe; [|exact HK].
      replace (K * (eps / K)) with eps in Hxe by (field; lra). exact Hxe. }
    unfold K in Hm. nra.
Qed.

(** A function made of a constant, a linear piece and a constant that
    agree at the joints [a < b] is continuous at both joints. *)
Lemma three_pieces_continuous (f : R -> R) (a b l r k : R) :
  a < b ->
  (forall x : R, x < a -> f x = l) ->
  (forall x : R, a <= x <= b -> f x = l + k * (x - a)) ->
  (forall x : R, b < x -> f x = r) ->
  l + k * (b - a) = r ->
  continuity_pt f a /\ continuity_pt f b.
Proof.
  intros Hab Hl Hm Hr Hj.
  assert (Ha : f a = l) by (rewrite Hm by lra; lra).
  assert (Hfb : f b = r) by (rewrite Hm by lra; lra).
  split.
  - apply (lipschitz_near_continuity_pt f a (Rabs k) (b - a)); [lra|].
    intros x Hx. rewrite Ha.
    destruct (Rlt_dec x a) as [Hlt | Hge].
    + rewrite Hl by exact Hlt.
      replace (l - l) with 0 by lra. rewrite Rabs_R0.
      apply Rmult_le_pos; apply Rabs_pos.
    + assert (Hxb : x <= b).
      { apply Rabs_def2 in Hx. lra. }
      rewrite Hm by lra.
      replace (l + k * (x - a) - l) with (k * (x - a)) by lra.
      rewrite Rabs_mult. lra.
  - apply (lipschitz_near_continuity_pt f b (Rabs k) (b - a)); [lra|].
    intros x Hx. rewrite Hfb.
    destruct (Rlt_dec b x) as [Hgt | Hle].
    + rewrite Hr by exact Hgt.
      replace (r - r) with 0 by lra. rewrite Rabs_R0.
      apply Rmult_le_pos; apply Rabs_pos.
    + assert (Hxa : a <= x).
      { apply Rabs_def2 in Hx. lra. }
      rewrite Hm by lra.
      replace (l + k * (x - a) - r) with (k * (x - b)) by lra.
      rewrite Rabs_mult. lra.
Qed.

(** C7.  With no oscillation and x_0 < x_r, the profiles take at the joints
    the values of the adjacent constant pieces -- c(x_0) = c_l,
    c(x_r) = c_l + s*(x_r - x_0) = c_r, Z(x_0) = Z_l, Z(x_r) = Z_r -- and
    c and Z are continuous at x_0 and at x_r. *)
Theorem profile_continuous_at_joints (p : Params) :
  oscillate p = 0 -> x_0 p < x_r p ->
  (c_fun p (x_0 p) = c_l p
   /\ c_fun p (x_r p) = c_l p + s p * (x_r p - x_0 p)
   /\ c_fun p (x_r p) = c_r p
   /\ Z_fun p (x_0 p) = Z_l p
   /\ Z_fun p (x_r p) = Z_r p)
  /\ (continuity_pt (c_fun p) (x_0 p)
      /\ continuity_pt (c_fun p) (x_r p)
      /\ continuity_pt (Z_fun p) (x_0 p)
      /\ continuity_pt (Z_fun p) (x_r p)).
Proof.
  intros Ho Hg.
  pose proof (s_slope p Hg) as Hs. pose proof (sZ_slope p Hg) as HsZ.
  split.
  - rewrite !c_fun_mid, !Z_fun_mid by (assumption || lra).
    repeat split; lra.
  - destruct (three_pieces_continuous
                (c_fun p) (x_0 p) (x_r p) (c_l p) (c_r p) (s p)) as [C0 Cr];
      [ exact Hg
      | intros x Hx; apply c_fun_left; lra
      | intros x Hx; now apply c_fun_mid
      | intros x Hx; apply c_fun_right; lra
      | exact Hs | ].
    destruct (three_pieces_continuous
                (Z_fun p) (x_0 p) (x_r p) (Z_l p) (Z_r p) (sZ p)) as [D0 Dr];
      [ exact Hg
      | intros x Hx; apply Z_fun_left; lra
      | intros x Hx; now apply Z_fun_mid
      | intros x Hx; apply Z_fun_right; lra
      | exact HsZ | ].
    repeat split; assumption.
Qed.

Lemma profile_continuous_at_joints_fig8a :
  (oscillate fig8a = 0 /\ x_0 fig8a < x_r fig8a)
  /\ c_fun fig8a 0 = 2 /\ c_fun fig8a 1 = 1
  /\ Z_fun fig8a 0 = 1 / 2 /\ Z_fun fig8a 1 = 1
  /\ continuity_pt (c_fun fig8a) 0 /\ continuity_pt (Z_fun fig8a) 1.
Proof.
  assert (Ho : oscillate fig8a = 0) by reflexivity.
  assert (Hg : x_0 fig8a < x_r fig8a) by (cbn; lra).
  destruct (profile_continuous_at_joints fig8a Ho Hg)
    as [(V1 & _ & V2 & V3 & V4) (K1 & _ & _ & K4)].
  split; [split; assumption|].
  repeat split; assumption.
Defined.

(** C8.  With x_0 <= x_r, every x left of the transition region gets the
    left constants c_l and Z_l and every x right of it gets the right
    constants c_r and Z_r; [c_fun] and [Z_fun] are total functions on the
    reals. *)
Theorem profile_constant_outside (p : Params) (x : R) :
  x_0 p <= x_r p ->
  (x < x_0 p -> c_fun p x = c_l p /\ Z_fun p x = Z_l p)
  /\ (x_r p < x -> c_fun p x = c_r p /\ Z_fun p x = Z_r p).
Proof.
  intros Hg. split; intros Hx; split.
  - now apply c_fun_left.
  - now apply Z_fun_left.
  - now apply c_fun_right.
  - now apply Z_fun_right.
Qed.

Lemma profile_constant_outside_fig8a :
  x_0 fig8a <= x_r fig8a
  /\ (c_fun fig8a (-3) = 2 /\ Z_fun fig8a (-3) = 1 / 2)
  /\ (c_fun fig8a 5 = 1 /\ Z_fun fig8a 5 = 1).
Proof.
  assert (Hg : x_0 fig8a <= x_r fig8a) by (cbn; lra).
  split; [exact Hg|]. split.
  - apply (profile_constant_outside fig8a (-3) Hg). cbn. lra.
  - apply (profile_constant_outside fig8a 5 Hg). cbn. lra.
Defined.

(** ** Claims about the amplitude arrays *)

(** C9.  For an accepted order, [reflected_wave] returns an array aligned
    with [x] whose entries at positions x >= x_0 are exactly 0, and
    [transmitted_wave] returns an array aligned with [x] whose entries at
    positions x <= x_r are exactly 0. *)
Theorem waves_vanish_off_their_region
  (g : Params) (quadrature : Integrate) (q : Params)
  (x : array) (t w : R) (N : Z) :
  (N <= 4)%Z ->
  (exists out : array,
      Refl.reflected_wave g q x t w N = Ok out
      /\ List.length out = List.length x
      /\ forall (i : nat) (xx : R),
           nth_error x i = Some xx -> x_0 q <= xx -> nth_error out i = Some 0)
  /\ (exists out : array,
         Trans.transmitted_wave g q x t w N = Ok out
         /\ List.length out = List.length x
         /\ forall (i : nat) (xx : R),
              nth_error x i = Some xx -> xx <= x_r q ->
              nth_error out i = Some 0).
Proof.
  intros HN. split.
  - rewrite reflected_wave_accepted by exact HN.
    eexists. split; [reflexivity|]. split; [apply vmap_length|].
    intros i xx Hi Hx. rewrite vmap_nth_error, Hi. cbn [option_map].
    rewrite Rltb_false by exact Hx. cbn [b2r]. f_equal. ring.
  - rewrite transmitted_wave_accepted by exact HN.
    eexists. split; [reflexivity|]. split; [apply vmap_length|].
    intros i xx Hi Hx. rewrite vmap_nth_error, Hi. cbn [option_map].
    rewrite Rgtb_false by exact Hx. cbn [b2r]. f_equal. ring.
Qed.

Lemma waves_vanish_off_their_region_fig8a :
  (2 <= 4)%Z
  /\ (exists out : array,
         Refl.reflected_wave fig8a fig8a [-1; 0; 2] 1 1 2 = Ok out
         /\ nth_error out 1 = Some 0 /\ nth_error out 2 = Some 0)
  /\ (exists out : array,
         Trans.transmitted_wave fig8a fig8a [-1; 0; 2] 1 1 2 = Ok out
         /\ nth_error out 0 = Some 0 /\ nth_error out 1 = Some 0).
Proof.
  assert (HN : (2 <= 4)%Z) by lia.
  destruct (waves_vanish_off_their_region
              fig8a midpoint fig8a [-1; 0; 2] 1 1 2 HN)
    as [(r & Er & _ & Hr) (tr & Et & _ & Ht)].
  split; [exact HN|]. split.
  - exists r. split; [exact Er|].
    split; [apply (Hr 1%nat 0) | apply (Hr 2%nat 2)];
      first [reflexivity | cbn; lra].
  - exists tr. split; [exact Et|].
    split; [apply (Ht 0%nat (-1)) | apply (Ht 1%nat 0)];
      first [reflexivity | cbn; lra].
Defined.

(** C4.  At every output point [xx = x[i]]: the entry [T_2[i]] built by
    [transmitted_wave] is 0 unless the causal time tt = t - (xx - x_r)/c_r
    satisfies t_r < tt < 3*t_r + t_w; the entry [T_4[i]] is 0 unless
    t_r < tt < 5*t_r + t_w; the entry [R_3[i]] built by [reflected_wave] is
    0 whenever the causal time t + xx/c_l exceeds 4*t_r + t_w; and for an
    accepted order neither evaluator raises (t_w = w/c_l). *)
Theorem terms_vanish_outside_windows
  (g : Params) (quadrature : Integrate) (q : Params)
  (x : array) (t w : R) (N : Z) (i : nat) (xx : R) :
  nth_error x i = Some xx ->
  (~ (t_r g < Trans.causal_time q t xx < 3 * t_r g + Trans.t_w q w) ->
   nth_error (snd (fst (Trans.terms g q w x t N))) i = Some 0)
  /\ (~ (t_r g < Trans.causal_time q t xx < 5 * t_r g + Trans.t_w q w) ->
      nth_error (snd (Trans.terms g q w x t N)) i = Some 0)
  /\ (4 * t_r g + Refl.t_w q w < Refl.causal_time q t xx ->
      nth_error (Refl.terms g q w x t N) i = Some 0)
  /\ ((N <= 4)%Z ->
      raises (Trans.transmitted_wave g q x t w N) = false
      /\ raises (Refl.reflected_wave g q x t w N) = false).
Proof.
  intros Hi. rewrite trans_terms_entries, refl_terms_entries. cbn [fst snd].
  rewrite !vmap_nth_error, Hi. cbn [option_map].
  split; [| split; [| split]].
  - intros Hw. f_equal. unfold Trans.T_2_at, Rgtb.
    destruct (N >=? 2)%Z; [|reflexivity]. cbn [andb].
    destruct (Rltb_spec (t_r g) (Trans.causal_time q t xx)) as [Hlo|_];
      [|reflexivity].
    destruct (Rltb_spec (Trans.causal_time q t xx)
                        (3 * t_r g + Trans.t_w q w)) as [Hhi|_];
      [|reflexivity].
    exfalso. apply Hw. split; assumption.
  - intros Hw. f_equal. unfold Trans.T_4_at, Rgtb.
    destruct (N >=? 2)%Z; [|reflexivity]. cbn [andb].
    destruct (Rltb_spec (t_r g) (Trans.causal_time q t xx)) as [Hlo|_];
      [|reflexivity].
    destruct (Rltb_spec (Trans.causal_time q t xx)
                        (5 * t_r g + Trans.t_w q w)) as [Hhi|_];
      [|reflexivity].
    exfalso. apply Hw. split; assumption.
  - intros Hw. f_equal. unfold Refl.R_3_at, Refl.R3.
    rewrite Rgtb_true by exact Hw. now destruct (N >=? 3)%Z.
  - intros HN.
    rewrite transmitted_wave_accepted, reflected_wave_accepted by exact HN.
    split; reflexivity.
Qed.

Lemma terms_vanish_outside_windows_fig8a :
  nth_error [2; -1] 0 = Some 2
  /\ nth_error (snd (fst (Trans.terms fig8a fig8a 1 [2; -1] 0 4))) 0 = Some 0
  /\ nth_error (snd (Trans.terms fig8a fig8a 1 [2; -1] 0 4)) 0 = Some 0
  /\ nth_error (Refl.terms fig8a fig8a 1 [-1; 2] 9 4) 1 = Some 0
  /\ raises (Trans.transmitted_wave fig8a fig8a [2; -1] 0 1 4) = false.
Proof.
  pose proof fig8a_t_r_bounds as Hb.
  assert (Hi : nth_error [2; -1] 0 = Some 2) by reflexivity.
  assert (Hj : nth_error [-1; 2] 1 = Some 2) by reflexivity.
  destruct (terms_vanish_outside_windows
              fig8a midpoint fig8a [2; -1] 0 1 4 0 2 Hi)
    as (H2 & H4 & _ & HN).
  destruct (terms_vanish_outside_windows
              fig8a midpoint fig8a [-1; 2] 9 1 4 1 2 Hj)
    as (_ & _ & H3 & _).
  assert (Ett : Trans.causal_time fig8a 0 2 = -1)
    by (unfold Trans.causal_time; cbn; field).
  split; [exact Hi | split; [| split; [| split]]].
  - apply H2. rewrite Ett. lra.
  - apply H4. rewrite Ett. lra.
  - apply H3. unfold Refl.causal_time, Refl.t_w. cbn. lra.
  - apply HN. lia.
Defined.

(** * Further properties of the notebook's code *)

(** ** Derivatives of the closed forms *)

Lemma derivable_pt_lim_affine_sin (a b d c k x : R) :
  derivable_pt_lim (fun y => a + b * (y - d) + c * sin (k * y)) x
                   (b + c * k * cos (k * x)).
Proof.
  replace (b + c * k * cos (k * x))
    with (0 + b * (1 - 0) + c * (cos (k * x) * (k * 1))) by ring.
  apply (derivable_pt_lim_ext
           (fct_cte a + mult_real_fct b (id - fct_cte d)
            + mult_real_fct c (comp sin (mult_real_fct k id)))%F).
  - intros z. reflexivity.
  - apply derivable_pt_lim_plus; [apply derivable_pt_lim_plus|].
    + apply derivable_pt_lim_const.
    + apply derivable_pt_lim_scal, derivable_pt_lim_minus;
        [apply derivable_pt_lim_id | apply derivable_pt_lim_const].
    + apply derivable_pt_lim_scal, derivable_pt_lim_comp.
      * apply derivable_pt_lim_scal, derivable_pt_lim_id.
      * apply derivable_pt_lim_sin.
Qed.

Lemma derivable_pt_lim_scaled_exp (a k t : R) :
  derivable_pt_lim (fun u => a * (exp (k * u) - 1)) t (a * k * exp (k * t)).
Proof.
  replace (a * k * exp (k * t)) with (a * (exp (k * t) * (k * 1) - 0)) by ring.
  apply (derivable_pt_lim_ext
           (mult_real_fct a (comp exp (mult_real_fct k id) - fct_cte 1))%F).
  - intros z. reflexivity.
  - apply derivable_pt_lim_scal, derivable_pt_lim_minus;
      [| apply derivable_pt_lim_const].
    apply derivable_pt_lim_comp.
    + apply derivable_pt_lim_scal, derivable_pt_lim_id.
    + apply derivable_pt_lim_exp.
Qed.

Lemma derivable_pt_lim_scaled_ln (a b x : R) :
  0 < b * x + 1 ->
  derivable_pt_lim (fun u => a * ln (b * u + 1)) x (a * (/ (b * x + 1) * b)).
Proof.
  intros Hpos.
  replace (a * (/ (b * x + 1) * b))
    with (a * (/ (b * x + 1) * (b * 1 + 0))) by ring.
  apply (derivable_pt_lim_ext
           (mult_real_fct a (comp ln (mult_real_fct b id + fct_cte 1)))%F).
  - intros z. reflexivity.
  - apply derivable_pt_lim_scal, derivable_pt_lim_comp.
    + apply derivable_pt_lim_plus;
        [apply derivable_pt_lim_scal, derivable_pt_lim_id
        | apply derivable_pt_lim_const].
    + apply derivable_pt_lim_ln. exact Hpos.
Qed.

(** X1.  Inside the slope, [Z_prime] is the derivative of [Z_fun], with or
    without the sinusoidal perturbation. *)
Theorem Z_prime_is_derivative_inside (p : Params) (x : R) :
  x_0 p < x < x_r p ->
  derivable_pt_lim (Z_fun p) x (Z_prime p x).
Proof.
  intros Hx.
  apply (derivable_pt_lim_locally_ext
           (fun y => Z_l p + sZ p * (y - x_0 p)
                     + oscillate p * sin (10 * PI * y))
           (Z_fun p) x (x_0 p) (x_r p)); [exact Hx | |].
  - intros z Hz. unfold Z_fun. np_cases; lra.
  - replace (Z_prime p x)
      with (sZ p + oscillate p * (10 * PI) * cos (10 * PI * x)).
    + apply derivable_pt_lim_affine_sin.
    + unfold Z_prime. destruct (Req_dec_T (oscillate p) 0) as [E | _].
      * rewrite E. ring.
      * ring.
Qed.

Lemma Z_prime_is_derivative_inside_fig8a :
  x_0 fig8a < 1 / 2 < x_r fig8a
  /\ derivable_pt_lim (Z_fun fig8a) (1 / 2) (Z_prime fig8a (1 / 2)).
Proof.
  assert (H : x_0 fig8a < 1 / 2 < x_r fig8a) by (cbn; lra).
  split; [exact H | exact (Z_prime_is_derivative_inside fig8a (1 / 2) H)].
Defined.

(** X2.  When the slope starts at the origin (x_0 = 0), [X] solves the
    characteristic ODE on (0, t_r): its derivative at t is
    [X_rhs(X(t), t) = c_fun(X(t))]. *)
Theorem X_solves_characteristic_ode (p : Params) (t : R) :
  0 < c_l p -> s p <> 0 -> x_0 p = 0 -> 0 < t < t_r p ->
  derivable_pt_lim (X p) t (X_rhs p (X p t) t).
Proof.
  intros Hc Hs H0 Ht.
  pose proof (X_between p Hc Hs t Ht) as Hb.
  unfold X_rhs. rewrite c_fun_mid by (rewrite H0; lra).
  rewrite H0, (X_inside p t Ht).
  apply (derivable_pt_lim_locally_ext
           (fun u => c_l p / s p * (exp (s p * u) - 1))
           (X p) t 0 (t_r p)); [exact Ht | |].
  - intros z Hz. symmetry. now apply X_inside.
  - replace (c_l p + s p * (c_l p / s p * (exp (s p * t) - 1) - 0))
      with (c_l p / s p * s p * exp (s p * t)) by field_side.
    apply derivable_pt_lim_scaled_exp.
Qed.

Lemma X_solves_characteristic_ode_fig8a :
  (0 < c_l fig8a /\ s fig8a <> 0 /\ x_0 fig8a = 0
   /\ 0 < t_r fig8a / 2 < t_r fig8a)
  /\ derivable_pt_lim (X fig8a) (t_r fig8a / 2)
                      (X_rhs fig8a (X fig8a (t_r fig8a / 2)) (t_r fig8a / 2)).
Proof.
  pose proof fig8a_t_r_bounds as Hb.
  assert (H0 : x_0 fig8a = 0) by reflexivity.
  assert (Ht : 0 < t_r fig8a / 2 < t_r fig8a) by lra.
  split.
  - repeat split; try lra; [exact fig8a_c_l_pos | exact fig8a_s_nonzero].
  - exact (X_solves_characteristic_ode
             fig8a (t_r fig8a / 2) fig8a_c_l_pos fig8a_s_nonzero H0 Ht).
Defined.

(** X3.  When the slope starts at the origin, the travel time has
    derivative 1/c inside the slope: dT/dx = 1 / c_fun(x) for 0 < x < x_r
    (the logarithm defining t_r being taken at a positive argument). *)
Theorem T_derivative_is_slowness (p : Params) (x : R) :
  0 < c_l p -> s p <> 0 -> x_0 p = 0 ->
  0 < s p * x_r p / c_l p + 1 -> 0 < x < x_r p ->
  derivable_pt_lim (T p) x (1 / c_fun p x).
Proof.
  intros Hc Hs H0 Ha Hx.
  assert (Hpos : 0 < s p * x / c_l p + 1)
    by (apply log_arg_pos_between; try assumption; lra).
  rewrite c_fun_mid by (rewrite H0; lra). rewrite H0.
  assert (Hpos' : 0 < s p / c_l p * x + 1)
    by (replace (s p / c_l p * x) with (s p * x / c_l p) by field_side;
        exact Hpos).
  apply (derivable_pt_lim_ext
           (fun u => 1 / s p * ln (s p / c_l p * u + 1))).
  - intros z. unfold T. do 2 f_equal. field_side.
  - replace (1 / (c_l p + s p * (x - 0)))
      with (1 / s p * (/ (s p / c_l p * x + 1) * (s p / c_l p))).
    + now apply derivable_pt_lim_scaled_ln.
    + assert (Hne : c_l p + s p * x <> 0).
      { replace (c_l p + s p * x) with (c_l p * (s p / c_l p * x + 1))
          by field_side.
        apply Rmult_integral_contrapositive_currified; lra. }
      field_side.
Qed.

Lemma T_derivative_is_slowness_fig8a :
  (0 < c_l fig8a /\ s fig8a <> 0 /\ x_0 fig8a = 0
   /\ 0 < s fig8a * x_r fig8a / c_l fig8a + 1 /\ 0 < 1 / 2 < x_r fig8a)
  /\ derivable_pt_lim (T fig8a) (1 / 2) (1 / c_fun fig8a (1 / 2)).
Proof.
  assert (H0 : x_0 fig8a = 0) by reflexivity.
  assert (Ha : 0 < s fig8a * x_r fig8a / c_l fig8a + 1)
    by (rewrite fig8a_log_arg; lra).
  assert (Hx : 0 < 1 / 2 < x_r fig8a) by (cbn; lra).
  split.
  - split; [exact fig8a_c_l_pos |].
    split; [exact fig8a_s_nonzero |].
    split; [exact H0 |]. split; [exact Ha | exact Hx].
  - exact (T_derivative_is_slowness
             fig8a (1 / 2) fig8a_c_l_pos fig8a_s_nonzero H0 Ha Hx).
Defined.

(** ** Invariants of the profile and of the characteristic path *)

(** With no oscillation the linear piece is a clamped ramp. *)
Lemma Z_fun_ramp (p : Params) (x : R) :
  oscillate p = 0 -> x_0 p < x_r p ->
  Z_fun p x
  = Z_l p + sZ p * Rmax 0 (Rmin (x - x_0 p) (x_r p - x_0 p)).
Proof.
  intros Ho Hg. pose proof (sZ_slope p Hg) as Hs.
  unfold Rmax, Rmin.
  destruct (Rle_dec (x - x_0 p) (x_r p - x_0 p)) as [H1 | H1];
    [destruct (Rle_dec 0 (x - x_0 p)) as [H2 | H2]
    | destruct (Rle_dec 0 (x_r p - x_0 p)) as [H2 | H2]].
  - rewrite Z_fun_mid by (assumption || lra). reflexivity.
  - rewrite Z_fun_left by lra. lra.
  - rewrite Z_fun_right by lra. lra.
  - lra.
Qed.

Lemma c_fun_ramp (p : Params) (x : R) :
  x_0 p < x_r p ->
  c_fun p x
  = c_l p + s p * Rmax 0 (Rmin (x - x_0 p) (x_r p - x_0 p)).
Proof.
  intros Hg. pose proof (s_slope p Hg) as Hs.
  unfold Rmax, Rmin.
  destruct (Rle_dec (x - x_0 p) (x_r p - x_0 p)) as [H1 | H1];
    [destruct (Rle_dec 0 (x - x_0 p)) as [H2 | H2]
    | destruct (Rle_dec 0 (x_r p - x_0 p)) as [H2 | H2]].
  - rewrite c_fun_mid by lra. reflexivity.
  - rewrite c_fun_left by lra. lra.
  - rewrite c_fun_right by lra. lra.
  - lra.
Qed.

Lemma ramp_bounds (u d : R) : 0 <= d -> 0 <= Rmax 0 (Rmin u d) <= d.
Proof.
  intros Hd. unfold Rmax, Rmin.
  destruct (Rle_dec u d); destruct (Rle_dec 0 u); try destruct (Rle_dec 0 d);
    lra.
Qed.

Lemma ramp_monotone (u v d : R) :
  u <= v -> Rmax 0 (Rmin u d) <= Rmax 0 (Rmin v d).
Proof.
  intros Huv. unfold Rmin.
  destruct (Rle_dec u d), (Rle_dec v d); unfold Rmax;
    repeat match goal with
           | |- context [Rle_dec ?a ?b] => destruct (Rle_dec a b)
           end; lra.
Qed.

(** A value on the segment from [l] to [r] lies between their minimum and
    their maximum. *)
Lemma segment_bounds (l r k d lam : R) :
  0 < d -> l + k * d = r -> 0 <= lam <= d ->
  Rmin l r <= l + k * lam <= Rmax l r.
Proof.
  intros Hd Hk Hlam.
  unfold Rmin, Rmax. destruct (Rle_dec l r) as [Hlr | Hlr].
  - assert (0 <= k) by nra. split; nra.
  - assert (k <= 0) by nra. split; nra.
Qed.

Lemma c_fun_between (p : Params) (x : R) :
  x_0 p < x_r p ->
  Rmin (c_l p) (c_r p) <= c_fun p x <= Rmax (c_l p) (c_r p).
Proof.
  intros Hg. rewrite c_fun_ramp by assumption.
  apply (segment_bounds _ _ _ (x_r p - x_0 p));
    [lra | now apply s_slope | apply ramp_bounds; lra].
Qed.

Lemma Z_fun_between (p : Params) (x : R) :
  oscillate p = 0 -> x_0 p < x_r p ->
  Rmin (Z_l p) (Z_r p) <= Z_fun p x <= Rmax (Z_l p) (Z_r p).
Proof.
  intros Ho Hg. rewrite Z_fun_ramp by assumption.
  apply (segment_bounds _ _ _ (x_r p - x_0 p));
    [lra | now apply sZ_slope | apply ramp_bounds; lra].
Qed.

(** X4.  With no oscillation and x_0 < x_r, both profiles stay between
    their left and right values at every real x; in particular they are
    positive wherever both end values are. *)
Theorem profiles_between_end_values (p : Params) (x : R) :
  oscillate p = 0 -> x_0 p < x_r p ->
  Rmin (c_l p) (c_r p) <= c_fun p x <= Rmax (c_l p) (c_r p)
  /\ Rmin (Z_l p) (Z_r p) <= Z_fun p x <= Rmax (Z_l p) (Z_r p).
Proof.
  intros Ho Hg. split; [now apply c_fun_between | now apply Z_fun_between].
Qed.

Lemma profiles_between_end_values_fig8a :
  (oscillate fig8a = 0 /\ x_0 fig8a < x_r fig8a)
  /\ Rmin (c_l fig8a) (c_r fig8a) <= c_fun fig8a (1 / 3)
     <= Rmax (c_l fig8a) (c_r fig8a)
  /\ Rmin (Z_l fig8a) (Z_r fig8a) <= Z_fun fig8a (1 / 3)
     <= Rmax (Z_l fig8a) (Z_r fig8a).
Proof.
  assert (Ho : oscillate fig8a = 0) by reflexivity.
  assert (Hg : x_0 fig8a < x_r fig8a) by (cbn; lra).
  split; [split; assumption|].
  exact (profiles_between_end_values fig8a (1 / 3) Ho Hg).
Defined.

Lemma Z_fun_pos (p : Params) (x : R) :
  oscillate p = 0 -> x_0 p < x_r p -> 0 < Z_l p -> 0 < Z_r p ->
  0 < Z_fun p x.
Proof.
  intros Ho Hg Hl Hr.
  destruct (Z_fun_between p x Ho Hg) as [Hlo _].
  eapply Rlt_le_trans; [| exact Hlo]. now apply Rmin_glb_lt.
Qed.

Lemma X_in_range (p : Params) (t : R) :
  0 < c_l p -> s p <> 0 -> 0 < t_r p -> 0 <= X p t <= x_r p.
Proof.
  intros Hc Hs Htr.
  assert (Hxr : 0 < x_r p) by (apply (t_r_pos_iff p Hc Hs); exact Htr).
  destruct (Rle_dec t 0) as [L | L].
  - rewrite X_before by lra. lra.
  - destruct (Rlt_dec t (t_r p)) as [U | U].
    + pose proof (X_between p Hc Hs t). lra.
    + rewrite X_after by lra. lra.
Qed.

(** X5.  With c_l > 0, s != 0 and a positive crossing time, the
    characteristic path never leaves the slope: 0 <= X(t) <= x_r for every
    real t, so every reflection point handed to [Z_fun] by the integrands
    lies in [0, x_r]. *)
Theorem X_stays_in_slope (p : Params) (t : R) :
  0 < c_l p -> s p <> 0 -> 0 < t_r p -> 0 <= X p t <= x_r p.
Proof. apply X_in_range. Qed.

Lemma X_stays_in_slope_fig8a :
  (0 < c_l fig8a /\ s fig8a <> 0 /\ 0 < t_r fig8a)
  /\ 0 <= X fig8a 7 <= x_r fig8a.
Proof.
  pose proof fig8a_t_r_bounds as Hb.
  split.
  - split; [exact fig8a_c_l_pos | split; [exact fig8a_s_nonzero | apply Hb]].
  - exact (X_stays_in_slope fig8a 7 fig8a_c_l_pos fig8a_s_nonzero (proj1 Hb)).
Defined.

(** ** The unreflected transmitted pulse *)

Lemma T0_window_out (g q : Params) (t w : R) :
  0 < c_l q ->
  ~ (t_r g - x_0 q / c_l q < t < t_r g + w / c_l q) ->
  Trans.T0 g q t w = 0.
Proof.
  intros Hc Hw.
  assert (E0 : x_0 q = x_0 q / c_l q * c_l q) by field_side.
  assert (Ew : w = w / c_l q * c_l q) by field_side.
  set (a := x_0 q / c_l q) in *. set (b := w / c_l q) in *.
  unfold Trans.T0. cbv zeta. unfold Rgtb.
  destruct (Rltb_spec ((t - t_r g) * - c_l q) (x_0 q)) as [H1 | H1];
    destruct (Rltb_spec (- w) ((t - t_r g) * - c_l q)) as [H2 | H2];
    cbn [b2r]; try ring.
  exfalso. apply Hw. rewrite E0 in H1. rewrite Ew in H2. split; nra.
Qed.

Lemma T0_window_in (g q : Params) (t w : R) :
  0 < c_l q ->
  t_r g - x_0 q / c_l q < t < t_r g + w / c_l q ->
  Trans.T0 g q t w = sqrt (Z_r q / Z_l q).
Proof.
  intros Hc [Hlo Hhi].
  assert (E0 : x_0 q = x_0 q / c_l q * c_l q) by field_side.
  assert (Ew : w = w / c_l q * c_l q) by field_side.
  set (a := x_0 q / c_l q) in *. set (b := w / c_l q) in *.
  unfold Trans.T0. cbv zeta.
  rewrite Rltb_true by (rewrite E0; nra).
  rewrite Rgtb_true by (rewrite Ew; nra).
  cbn [b2r]. ring.
Qed.

(** X6.  With c_l > 0, [T0(t, w)] is sqrt(Z_r/Z_l) exactly on the time
    window t_r - x_0/c_l < t < t_r + w/c_l and 0 at every other time. *)
Theorem T0_window (g q : Params) (t w : R) :
  0 < c_l q ->
  (t_r g - x_0 q / c_l q < t < t_r g + w / c_l q ->
   Trans.T0 g q t w = sqrt (Z_r q / Z_l q))
  /\ (~ (t_r g - x_0 q / c_l q < t < t_r g + w / c_l q) ->
      Trans.T0 g q t w = 0).
Proof.
  intros Hc. split; [now apply T0_window_in | now apply T0_window_out].
Qed.

Lemma T0_window_fig8a :
  0 < c_l fig8a
  /\ Trans.T0 fig8a fig8a (t_r fig8a + 1 / 4) 1
     = sqrt (Z_r fig8a / Z_l fig8a)
  /\ Trans.T0 fig8a fig8a (t_r fig8a - 1) 1 = 0.
Proof.
  destruct (T0_window fig8a fig8a (t_r fig8a + 1 / 4) 1 fig8a_c_l_pos)
    as [Hin _].
  destruct (T0_window fig8a fig8a (t_r fig8a - 1) 1 fig8a_c_l_pos)
    as [_ Hout].
  split; [exact fig8a_c_l_pos | split].
  - apply Hin. cbn. lra.
  - apply Hout. cbn. lra.
Defined.

(** ** First reflections *)

Section FirstReflections.

Variables (g q : Params) (w : R).

Lemma alpha_early (t : R) :
  t < 2 * t_r g + Refl.t_w q w ->
  Refl.alpha g q w t = X g ((t - Refl.t_w q w) / 2).
Proof.
  intros Ht. unfold Refl.alpha.
  rewrite (Rltb_true t (2 * t_r g + Refl.t_w q w)) by exact Ht.
  cbn [b2r]. ring.
Qed.

Lemma alpha_late (t : R) :
  2 * t_r g + Refl.t_w q w <= t -> Refl.alpha g q w t = 0.
Proof.
  intros Ht. unfold Refl.alpha.
  rewrite (Rltb_false t (2 * t_r g + Refl.t_w q w)) by exact Ht.
  cbn [b2r]. ring.
Qed.

Lemma beta_early (t : R) :
  t < 2 * t_r g -> Refl.beta g q w t = X g (t / 2).
Proof.
  intros Ht. unfold Refl.beta.
  rewrite (Rltb_true t (2 * t_r g)), Rgtb_false by lra. cbn [b2r]. ring.
Qed.

Lemma beta_middle (t : R) :
  2 * t_r g < t < 2 * t_r g + Refl.t_w q w -> Refl.beta g q w t = x_r q.
Proof.
  intros [H1 H2]. unfold Refl.beta.
  rewrite (Rltb_false t (2 * t_r g)), Rgtb_true, Rltb_true
    by first [exact H2 | lra].
  cbn [b2r]. ring.
Qed.

Lemma beta_at_2t_r : Refl.beta g q w (2 * t_r g) = 0.
Proof.
  unfold Refl.beta. rewrite Rltb_false, Rgtb_false by lra. cbn [b2r]. ring.
Qed.

Lemma beta_late (t : R) :
  0 <= Refl.t_w q w -> 2 * t_r g + Refl.t_w q w <= t ->
  Refl.beta g q w t = 0.
Proof.
  intros Hw Ht. unfold Refl.beta.
  rewrite (Rltb_false t (2 * t_r g)) by lra.
  rewrite (Rltb_false t (2 * t_r g + Refl.t_w q w)) by exact Ht.
  cbn [b2r]. ring.
Qed.

Lemma R_1_late (t : R) :
  0 <= Refl.t_w q w -> 0 < Z_fun g 0 ->
  2 * t_r g + Refl.t_w q w <= t -> Refl.R_1 g q w t = 0.
Proof.
  intros Hw HZ Ht. unfold Refl.R_1.
  rewrite alpha_late, beta_late by assumption.
  replace (Z_fun g 0 / Z_fun g 0) with 1 by (field; lra).
  rewrite ln_1. ring.
Qed.

Lemma R_1_before (t : R) : t <= 0 -> Refl.R_1 g q w t = 0.
Proof.
  intros Ht. unfold Refl.R_1. rewrite Rgtb_false by exact Ht.
  cbn [b2r]. ring.
Qed.

End FirstReflections.

(** X7.  The upper integration limit [beta] of the first reflections is
    X(t/2) before 2*t_r and x_r between 2*t_r and 2*t_r + t_w; at the
    instant t = 2*t_r itself neither strict comparison holds and [beta]
    is 0; from 2*t_r + t_w on it is 0 (t_w = w/c_l >= 0). *)
Theorem beta_piecewise (g q : Params) (w : R) :
  0 <= Refl.t_w q w ->
  (forall t : R, t < 2 * t_r g -> Refl.beta g q w t = X g (t / 2))
  /\ (forall t : R, 2 * t_r g < t < 2 * t_r g + Refl.t_w q w ->
        Refl.beta g q w t = x_r q)
  /\ Refl.beta g q w (2 * t_r g) = 0
  /\ (forall t : R, 2 * t_r g + Refl.t_w q w <= t -> Refl.beta g q w t = 0).
Proof.
  intros Hw. split; [| split; [| split]].
  - apply beta_early.
  - apply beta_middle.
  - apply beta_at_2t_r.
  - intros t. now apply beta_late.
Qed.

Lemma beta_piecewise_fig8a :
  0 <= Refl.t_w fig8a 1
  /\ Refl.beta fig8a fig8a 1 0 = X fig8a (0 / 2)
  /\ Refl.beta fig8a fig8a 1 (2 * t_r fig8a + 1 / 4) = x_r fig8a
  /\ Refl.beta fig8a fig8a 1 (2 * t_r fig8a) = 0
  /\ Refl.beta fig8a fig8a 1 (2 * t_r fig8a + 1) = 0.
Proof.
  pose proof fig8a_t_r_bounds as Hb.
  assert (Hw : 0 <= Refl.t_w fig8a 1) by (unfold Refl.t_w; cbn; lra).
  destruct (beta_piecewise fig8a fig8a 1 Hw) as (B1 & B2 & B3 & B4).
  split; [exact Hw|].
  split; [apply B1; lra|].
  split; [apply B2; unfold Refl.t_w; cbn; lra|].
  split; [exact B3 | apply B4; unfold Refl.t_w; cbn; lra].
Defined.

Lemma R_1_matches_closed_form_aux (g q : Params) (w t : R) :
  0 < t_r g -> 0 <= Refl.t_w q w -> x_r q = x_r g ->
  0 < Z_fun g 0 -> 0 < Z_fun g (x_r g) ->
  0 < t -> t <> 2 * t_r g ->
  Refl.R_1 g q w t
  = 1 / 2 * ln (Z_fun g (X g (t / 2))
                / Z_fun g (X g ((t - Refl.t_w q w) / 2))).
Proof.
  intros Htr Hw Hx HZ0 HZr Ht Hne.
  destruct (Rlt_dec t (2 * t_r g + Refl.t_w q w)) as [Hin | Hout].
  - unfold Refl.R_1. rewrite alpha_early by exact Hin.
    rewrite Rgtb_true by exact Ht. cbn [b2r].
    destruct (Rlt_dec t (2 * t_r g)) as [H1 | H1].
    + rewrite beta_early by exact H1. lra.
    + rewrite beta_middle by lra.
      rewrite (X_after g (t / 2)) by lra. rewrite Hx. lra.
  - rewrite R_1_late by (assumption || lra).
    rewrite !(X_after g) by lra.
    replace (Z_fun g (x_r g) / Z_fun g (x_r g)) with 1 by (field; lra).
    rewrite ln_1. ring.
Qed.

(** X8.  For every t > 0 other than 2*t_r, [R_1] is the closed form of the
    notebook's text, (1/2) log(Z(X(t/2)) / Z(X((t - w/c_l)/2))), given a
    positive crossing time, t_w >= 0, the evaluator made with the
    module-level x_r, and a positive impedance at 0 and at x_r. *)
Theorem R_1_matches_closed_form (g q : Params) (w t : R) :
  0 < t_r g -> 0 <= Refl.t_w q w -> x_r q = x_r g ->
  0 < Z_fun g 0 -> 0 < Z_fun g (x_r g) ->
  0 < t -> t <> 2 * t_r g ->
  Refl.R_1 g q w t
  = 1 / 2 * ln (Z_fun g (X g (t / 2))
                / Z_fun g (X g ((t - Refl.t_w q w) / 2))).
Proof. apply R_1_matches_closed_form_aux. Qed.

Lemma fig8a_Z_pos (x : R) : 0 < Z_fun fig8a x.
Proof. apply Z_fun_pos; cbn; lra. Qed.

Lemma R_1_matches_closed_form_fig8a :
  (0 < t_r fig8a /\ 0 <= Refl.t_w fig8a 1 /\ x_r fig8a = x_r fig8a
   /\ 0 < Z_fun fig8a 0 /\ 0 < Z_fun fig8a (x_r fig8a)
   /\ 0 < 1 / 2 /\ 1 / 2 <> 2 * t_r fig8a)
  /\ Refl.R_1 fig8a fig8a 1 (1 / 2)
     = 1 / 2 * ln (Z_fun fig8a (X fig8a (1 / 2 / 2))
                   / Z_fun fig8a (X fig8a ((1 / 2 - Refl.t_w fig8a 1) / 2))).
Proof.
  pose proof fig8a_t_r_bounds as Hb. pose proof ln_lt_2 as Hl.
  assert (Hw : 0 <= Refl.t_w fig8a 1) by (unfold Refl.t_w; cbn; lra).
  assert (Hne : 1 / 2 <> 2 * t_r fig8a) by (rewrite fig8a_t_r; lra).
  assert (Hh : 0 < 1 / 2) by lra.
  split.
  - split; [apply Hb |]. split; [exact Hw |]. split; [reflexivity |].
    split; [apply fig8a_Z_pos |]. split; [apply fig8a_Z_pos |].
    split; [exact Hh | exact Hne].
  - exact (R_1_matches_closed_form fig8a fig8a 1 (1 / 2) (proj1 Hb) Hw
             eq_refl (fig8a_Z_pos 0) (fig8a_Z_pos (x_r fig8a)) Hh Hne).
Defined.

(** ** Causality of the two evaluators *)

(** X9.  Nothing is transmitted before the crossing time and nothing is
    left after 5*t_r + t_w: for an accepted order, with c_l > 0, x_0 = 0
    and t_r >= 0, the entry of [transmitted_wave] at a point whose causal
    time tt = t - (xx - x_r)/c_r satisfies tt <= t_r or tt >= 5*t_r + t_w
    is 0. *)
Theorem transmitted_wave_silent_outside
  (g : Params) (quadrature : Integrate) (q : Params)
  (x : array) (t w : R) (N : Z) (i : nat) (xx : R) :
  (N <= 4)%Z -> 0 < c_l q -> x_0 q = 0 -> 0 <= t_r g ->
  nth_error x i = Some xx ->
  Trans.causal_time q t xx <= t_r g
  \/ 5 * t_r g + Trans.t_w q w <= Trans.causal_time q t xx ->
  exists out : array,
    Trans.transmitted_wave g q x t w N = Ok out
    /\ nth_error out i = Some 0.
Proof.
  intros HN Hc H0 Htr Hi Htt.
  rewrite transmitted_wave_accepted by exact HN.
  eexists. split; [reflexivity|].
  rewrite vmap_nth_error, Hi. cbn [option_map]. f_equal.
  set (tt := Trans.causal_time q t xx) in *.
  assert (E0 : Trans.T0 g q tt w = 0).
  { apply (T0_window_out g q tt w Hc). rewrite H0.
    unfold Trans.t_w in Htt. intros [H1 H2].
    replace (0 / c_l q) with 0 in H1 by (field; lra). lra. }
  assert (E2 : Trans.T_2_at g q w t N xx = 0).
  { unfold Trans.T_2_at. fold tt. unfold Rgtb.
    destruct (N >=? 2)%Z; [|reflexivity]. cbn [andb].
    destruct (Rltb_spec (t_r g) tt); [|reflexivity].
    destruct (Rltb_spec tt (3 * t_r g + Trans.t_w q w)); [|reflexivity].
    lra. }
  assert (E4 : Trans.T_4_at g q w t N xx = 0).
  { unfold Trans.T_4_at. fold tt. unfold Rgtb.
    destruct (N >=? 2)%Z; [|reflexivity]. cbn [andb].
    destruct (Rltb_spec (t_r g) tt); [|reflexivity].
    destruct (Rltb_spec tt (5 * t_r g + Trans.t_w q w)); [|reflexivity].
    lra. }
  rewrite E0, E2, E4. ring.
Qed.

Lemma transmitted_wave_silent_outside_fig8a :
  ((4 <= 4)%Z /\ 0 < c_l fig8a /\ x_0 fig8a = 0 /\ 0 <= t_r fig8a
   /\ nth_error [2; 3] 1 = Some 3
   /\ Trans.causal_time fig8a 1 3 <= t_r fig8a)
  /\ exists out : array,
       Trans.transmitted_wave fig8a fig8a [2; 3] 1 1 4 = Ok out
       /\ nth_error out 1 = Some 0.
Proof.
  pose proof fig8a_t_r_bounds as Hb.
  assert (HN : (4 <= 4)%Z) by lia.
  assert (H0 : x_0 fig8a = 0) by reflexivity.
  assert (Htr : 0 <= t_r fig8a) by lra.
  assert (Hi : nth_error [2; 3] 1 = Some 3) by reflexivity.
  assert (Htt : Trans.causal_time fig8a 1 3 <= t_r fig8a)
    by (unfold Trans.causal_time; cbn; lra).
  split.
  - split; [exact HN |]. split; [exact fig8a_c_l_pos |].
    split; [exact H0 |]. split; [exact Htr |]. split; [exact Hi | exact Htt].
  - exact (transmitted_wave_silent_outside
             fig8a midpoint fig8a [2; 3] 1 1 4 1 3
             HN fig8a_c_l_pos H0 Htr Hi (or_introl Htt)).
Defined.

Lemma R3_after (g : Params) (quadrature : Integrate) (q : Params) (w t : R) :
  4 * t_r g + Refl.t_w q w < t -> Refl.R3 g q w t = 0.
Proof. intros Ht. unfold Refl.R3. now rewrite Rgtb_true by exact Ht. Qed.

Lemma R3_before (g : Params) (quadrature : Integrate) (q : Params) (w t : R) :
  (forall f a gfun hfun, dblquad f a a gfun hfun = 0) ->
  0 < t_r g -> 0 <= Refl.t_w q w -> t <= 0 -> Refl.R3 g q w t = 0.
Proof.
  intros Hq Htr Hw Ht. unfold Refl.R3.
  rewrite Rgtb_false by lra. cbv zeta.
  rewrite X_before by lra. apply Hq.
Qed.

(** X10.  Nothing is reflected before the pulse reaches the slope and
    nothing is left after 4*t_r + t_w: for an accepted order, with
    t_r > 0, t_w >= 0, a positive impedance at 0, and a quadrature routine
    that returns 0 on an empty outer range, the entry of [reflected_wave]
    at a point whose causal time tt = t + xx/c_l satisfies tt <= 0 or
    tt > 4*t_r + t_w is 0. *)
Theorem reflected_wave_silent_outside
  (g : Params) (quadrature : Integrate) (q : Params)
  (x : array) (t w : R) (N : Z) (i : nat) (xx : R) :
  (N <= 4)%Z -> 0 < t_r g -> 0 <= Refl.t_w q w -> 0 < Z_fun g 0 ->
  (forall f a gfun hfun, dblquad f a a gfun hfun = 0) ->
  nth_error x i = Some xx ->
  Refl.causal_time q t xx <= 0
  \/ 4 * t_r g + Refl.t_w q w < Refl.causal_time q t xx ->
  exists out : array,
    Refl.reflected_wave g q x t w N = Ok out
    /\ nth_error out i = Some 0.
Proof.
  intros HN Htr Hw HZ Hq Hi Htt.
  rewrite reflected_wave_accepted by exact HN.
  eexists. split; [reflexivity|].
  rewrite vmap_nth_error, Hi. cbn [option_map]. f_equal.
  set (tt := Refl.causal_time q t xx) in *.
  assert (E1 : Refl.R_1 g q w tt = 0).
  { destruct Htt as [Hb | Ha].
    - now apply R_1_before.
    - apply R_1_late; try assumption. lra. }
  assert (E3 : Refl.R_3_at g q w t N xx = 0).
  { unfold Refl.R_3_at. fold tt. destruct (N >=? 3)%Z; [|reflexivity].
    destruct Htt as [Hb | Ha].
    - now apply R3_before.
    - now apply R3_after. }
  rewrite E1, E3. ring.
Qed.

Lemma midpoint_dblquad_empty
  (f : R -> R -> R) (a : R) (gfun hfun : R -> R) :
  @dblquad midpoint f a a gfun hfun = 0.
Proof. cbn. unfold midpoint_dblquad, midpoint_quad. ring. Qed.

Lemma reflected_wave_silent_outside_fig8a :
  ((4 <= 4)%Z /\ 0 < t_r fig8a /\ 0 <= Refl.t_w fig8a 1
   /\ 0 < Z_fun fig8a 0
   /\ (forall f a gfun hfun, @dblquad midpoint f a a gfun hfun = 0)
   /\ nth_error [-4; -1] 0 = Some (-4)
   /\ Refl.causal_time fig8a 1 (-4) <= 0)
  /\ exists out : array,
       Refl.reflected_wave fig8a fig8a [-4; -1] 1 1 4 = Ok out
       /\ nth_error out 0 = Some 0.
Proof.
  pose proof fig8a_t_r_bounds as Hb.
  assert (HN : (4 <= 4)%Z) by lia.
  assert (Hw : 0 <= Refl.t_w fig8a 1) by (unfold Refl.t_w; cbn; lra).
  assert (Hi : nth_error [-4; -1] 0 = Some (-4)) by reflexivity.
  assert (Htt : Refl.causal_time fig8a 1 (-4) <= 0)
    by (unfold Refl.causal_time; cbn; lra).
  split.
  - split; [exact HN |]. split; [apply Hb |]. split; [exact Hw |].
    split; [apply fig8a_Z_pos |].
    split; [exact midpoint_dblquad_empty |]. split; [exact Hi | exact Htt].
  - exact (reflected_wave_silent_outside
             fig8a midpoint fig8a [-4; -1] 1 1 4 0 (-4)
             HN (proj1 Hb) Hw (fig8a_Z_pos 0) midpoint_dblquad_empty
             Hi (or_introl Htt)).
Defined.

(** ** The loops' guards and the guards inside T2 and T4 *)

(** X11.  For N >= 2 the loop of [transmitted_wave] stores in [T_2[i]]
    exactly what [T2] returns at the causal time, except possibly at the
    two instants tt = t_r and tt = 3*t_r + t_w, where the loop's strict
    guard keeps 0 without calling [T2]; whenever the loop does call [T2]
    the guard inside [T2] does not fire and the entry is the quadrature
    value.  The same holds for [T_4] with N >= 4 and 5*t_r + t_w. *)
Theorem loop_guards_agree_with_inner_guards
  (g : Params) (quadrature : Integrate) (q : Params)
  (x : array) (t w : R) (N : Z) (i : nat) (xx : R) :
  nth_error x i = Some xx ->
  ((2 <= N)%Z ->
   Trans.causal_time q t xx <> t_r g ->
   Trans.causal_time q t xx <> 3 * t_r g + Trans.t_w q w ->
   nth_error (snd (fst (Trans.terms g q w x t N))) i
   = Some (Trans.T2 g q w (Trans.causal_time q t xx)))
  /\ ((2 <= N)%Z ->
      t_r g < Trans.causal_time q t xx < 3 * t_r g + Trans.t_w q w ->
      nth_error (snd (fst (Trans.terms g q w x t N))) i
      = Some (Rpower (Z_r q / Z_l q) (1 / 2)
              * quad (Trans.T2_integrand g q w (Trans.causal_time q t xx))
                     0 (x_r q)))
  /\ ((4 <= N)%Z ->
      Trans.causal_time q t xx <> t_r g ->
      Trans.causal_time q t xx <> 5 * t_r g + Trans.t_w q w ->
      nth_error (snd (Trans.terms g q w x t N)) i
      = Some (Trans.T4 g q w (Trans.causal_time q t xx)))
  /\ ((4 <= N)%Z ->
      t_r g < Trans.causal_time q t xx < 5 * t_r g + Trans.t_w q w ->
      nth_error (snd (Trans.terms g q w x t N)) i
      = Some (Rpower (Z_r q / Z_l q) (1 / 2)
              * tplquad (Trans.T4_integrand4 g q w (Trans.causal_time q t xx))
                        0 (x_r q) Trans.zerofun Trans.identity
                        Trans.identity2 (Trans.x_r_fun q))).
Proof.
  intros Hi. rewrite trans_terms_entries. cbn [fst snd].
  rewrite !vmap_nth_error, Hi. cbn [option_map].
  unfold Trans.T_2_at, Trans.T_4_at, Trans.T2, Trans.T4, Rgtb. cbv zeta.
  set (tt := Trans.causal_time q t xx).
  split; [| split; [| split]].
  - intros HN H1 H2. rewrite Zgeb_true by exact HN. cbn [andb]. f_equal.
    destruct (Rltb_spec (t_r g) tt), (Rltb_spec tt (t_r g)),
      (Rltb_spec tt (3 * t_r g + Trans.t_w q w)),
      (Rltb_spec (3 * t_r g + Trans.t_w q w) tt);
      cbn [andb orb]; try reflexivity; exfalso; lra.
  - intros HN [H1 H2]. rewrite Zgeb_true by exact HN. cbn [andb]. f_equal.
    rewrite !Rltb_true by assumption.
    rewrite !Rltb_false by lra. reflexivity.
  - intros HN H1 H2. rewrite !Zgeb_true by lia. cbn [andb]. f_equal.
    destruct (Rltb_spec (t_r g) tt), (Rltb_spec tt (t_r g)),
      (Rltb_spec tt (5 * t_r g + Trans.t_w q w)),
      (Rltb_spec (5 * t_r g + Trans.t_w q w) tt);
      cbn [andb orb]; try reflexivity; exfalso; lra.
  - intros HN [H1 H2]. rewrite !Zgeb_true by lia. cbn [andb]. f_equal.
    rewrite !Rltb_true by assumption.
    rewrite !Rltb_false by lra. reflexivity.
Qed.

Lemma loop_guards_agree_with_inner_guards_fig8a :
  nth_error [2] 0 = Some 2
  /\ nth_error (snd (fst (Trans.terms fig8a fig8a 1 [2] 2 2))) 0
     = Some (Trans.T2 fig8a fig8a 1 (Trans.causal_time fig8a 2 2))
  /\ nth_error (snd (fst (Trans.terms fig8a fig8a 1 [2] 2 2))) 0
     = Some (Rpower (Z_r fig8a / Z_l fig8a) (1 / 2)
             * quad (Trans.T2_integrand fig8a fig8a 1
                       (Trans.causal_time fig8a 2 2))
                    0 (x_r fig8a)).
Proof.
  pose proof fig8a_t_r_bounds as Hb.
  assert (Hl : 1 / 2 < t_r fig8a)
    by (rewrite fig8a_t_r; pose proof ln_lt_2; lra).
  assert (Hi : nth_error [2] 0 = Some 2) by reflexivity.
  assert (Ett : Trans.causal_time fig8a 2 2 = 1)
    by (unfold Trans.causal_time; cbn; field).
  assert (Etw : Trans.t_w fig8a 1 = 1 / 2) by (unfold Trans.t_w; cbn; lra).
  destruct (loop_guards_agree_with_inner_guards
              fig8a midpoint fig8a [2] 2 1 2 0 2 Hi) as (G1 & G2 & _).
  split; [exact Hi | split].
  - apply G1; [lia | rewrite Ett; lra | rewrite Ett, Etw; lra].
  - apply G2; [lia | rewrite Ett, Etw; lra].
Defined.

(** ** The data of the reference solver *)

Lemma setup_Z_at_agrees (q : Params) (x : R) :
  x_r q <> x_0 q -> Setup.Z_at q x = Z_fun q x.
Proof.
  intros Hne. unfold Setup.Z_at, Z_fun, sZ. cbv zeta.
  destruct (Req_dec_T (x_r q - x_0 q) 0) as [E | _]; [exfalso; lra|].
  destruct (Req_dec_T (oscillate q) 0) as [Eo | _].
  - rewrite Eo. unfold Rdiv. ring.
  - unfold Rdiv. ring.
Qed.

Lemma setup_c_at_agrees (q : Params) (x : R) :
  x_r q <> x_0 q -> Setup.c_at q x = c_fun q x.
Proof.
  intros Hne. unfold Setup.c_at, c_fun, s.
  destruct (Req_dec_T (x_r q - x_0 q) 0) as [E | _]; [exfalso; lra|].
  unfold Rdiv. ring.
Qed.

(** X12.  When x_r differs from x_0, the auxiliary arrays that [setup]
    gives the reference solver are the evaluator's own profiles sampled at
    the cell centres: Z = Z_fun(xc) and c = c_fun(xc), with or without the
    oscillation. *)
Theorem setup_profiles_are_the_evaluator_profiles (q : Params) (xc : array) :
  x_r q <> x_0 q ->
  Setup.Z q xc = vmap (Z_fun q) xc /\ Setup.c q xc = vmap (c_fun q) xc.
Proof.
  intros Hne. unfold Setup.Z, Setup.c. split; apply vmap_ext; intros x.
  - now apply setup_Z_at_agrees.
  - now apply setup_c_at_agrees.
Qed.

Lemma setup_profiles_are_the_evaluator_profiles_fig8a :
  x_r fig8a <> x_0 fig8a
  /\ Setup.Z fig8a [-1; 1 / 2; 3] = vmap (Z_fun fig8a) [-1; 1 / 2; 3]
  /\ Setup.c fig8a [-1; 1 / 2; 3] = vmap (c_fun fig8a) [-1; 1 / 2; 3].
Proof.
  assert (Hne : x_r fig8a <> x_0 fig8a) by (cbn; lra).
  split; [exact Hne|].
  exact (setup_profiles_are_the_evaluator_profiles fig8a [-1; 1 / 2; 3] Hne).
Defined.

(** X13.  When x_r = x_0, [setup] builds a step instead: Z and c take
    their left values for x < x_0 and their right values from x_0 on, and
    the oscillation term contributes nothing. *)
Theorem setup_step_profile (q : Params) (x : R) :
  x_r q = x_0 q ->
  (x < x_0 q -> Setup.Z_at q x = Z_l q /\ Setup.c_at q x = c_l q)
  /\ (x_0 q <= x -> Setup.Z_at q x = Z_r q /\ Setup.c_at q x = c_r q).
Proof.
  intros E. unfold Setup.Z_at, Setup.c_at. cbv zeta. rewrite E.
  destruct (Req_dec_T (x_0 q - x_0 q) 0) as [_ | Hn]; [| exfalso; lra].
  split; intros Hx.
  - rewrite (Rltb_true x (x_0 q)), Rgeb_false, Rgtb_false by lra.
    cbn [b2r]. destruct (Req_dec_T (oscillate q) 0); split; ring.
  - rewrite (Rltb_false x (x_0 q)), Rgeb_true by lra.
    cbn [b2r]. destruct (Req_dec_T (oscillate q) 0); split; ring.
Qed.

Lemma setup_step_profile_sharp_interface :
  x_r sharp_interface = x_0 sharp_interface
  /\ Setup.Z_at sharp_interface (-1) = Z_l sharp_interface
  /\ Setup.Z_at sharp_interface 0 = Z_r sharp_interface.
Proof.
  assert (E : x_r sharp_interface = x_0 sharp_interface) by reflexivity.
  destruct (setup_step_profile sharp_interface (-1) E) as [L _].
  destruct (setup_step_profile sharp_interface 0 E) as [_ Rg].
  split; [exact E | split].
  - apply L. cbn. lra.
  - apply Rg. cbn. lra.
Defined.

(** X14.  The initial data of [setup] is a unit pressure pulse on
    (x_0 - w, x_0) moving in the left medium: with x_0 <= x_r, at a cell
    centre inside that interval the pressure is 1 and the velocity is
    1/Z_l; at every other cell centre the pressure is 0. *)
Theorem setup_initial_pulse (w : R) (q : Params) (xc : array) (i : nat) (x : R) :
  x_0 q <= x_r q ->
  nth_error xc i = Some x ->
  (x_0 q - w < x < x_0 q ->
   nth_error (Setup.pressure w q xc) i = Some 1
   /\ nth_error (Setup.velocity w q xc) i = Some (1 / Z_l q))
  /\ (~ (x_0 q - w < x < x_0 q) ->
      nth_error (Setup.pressure w q xc) i = Some 0).
Proof.
  intros Hg Hi. unfold Setup.velocity, Setup.pressure, Setup.Z.
  rewrite vmap2_map, !vmap_nth_error, Hi. cbn [option_map]. unfold Rgtb.
  split.
  - intros [H1 H2]. rewrite !Rltb_true by assumption. cbn [b2r].
    split; [apply f_equal; lra|]. apply f_equal.
    assert (EZ : Setup.Z_at q x = Z_l q).
    { unfold Setup.Z_at. cbv zeta.
      destruct (Req_dec_T (x_r q - x_0 q) 0),
        (Req_dec_T (oscillate q) 0); np_cases; lra. }
    rewrite EZ. lra.
  - intros Hn. apply f_equal.
    destruct (Rltb_spec (x_0 q - w) x), (Rltb_spec x (x_0 q));
      cbn [b2r]; first [lra | exfalso; apply Hn; split; assumption].
Qed.

Lemma setup_initial_pulse_fig8a :
  (x_0 fig8a <= x_r fig8a /\ nth_error [-1 / 2; 2] 0 = Some (-1 / 2))
  /\ nth_error (Setup.pressure 1 fig8a [-1 / 2; 2]) 0 = Some 1
  /\ nth_error (Setup.velocity 1 fig8a [-1 / 2; 2]) 0
     = Some (1 / Z_l fig8a).
Proof.
  assert (Hg : x_0 fig8a <= x_r fig8a) by (cbn; lra).
  assert (Hi : nth_error [-1 / 2; 2] 0 = Some (-1 / 2)) by reflexivity.
  destruct (setup_initial_pulse 1 fig8a [-1 / 2; 2] 0 (-1 / 2) Hg Hi)
    as [Hin _].
  split; [split; assumption|]. apply Hin. cbn. lra.
Defined.

(** ** The comparison cells: one region, one evaluator *)

(** X15.  For an accepted order and x_0 <= x_r, the sum formed in the
    comparison cells is aligned with [x] and splits by region: left of x_0
    it is the incident 1 plus R_1 + R_3, inside the slope it is 0, right of
    x_r it is T_0 + T_2 + T_4.  For an order above 4 the sum raises the
    reflected wave's exception, since that operand is evaluated first. *)
Theorem comparison_wave_by_region
  (p : Params) (quadrature : Integrate) (x : array) (t w : R) (N : Z) :
  ((N <= 4)%Z -> x_0 p <= x_r p ->
   exists out : array,
     Driver.wave_with_incident p x t w N = Ok out
     /\ List.length out = List.length x
     /\ forall (i : nat) (xx : R),
          nth_error x i = Some xx ->
          (xx < x_0 p ->
           nth_error out i
           = Some (Refl.R_1 p p w (Refl.causal_time p t xx)
                   + Refl.R_3_at p p w t N xx + 1))
          /\ (x_0 p <= xx <= x_r p -> nth_error out i = Some 0)
          /\ (x_r p < xx ->
              nth_error out i
              = Some (Trans.T0 p p (Trans.causal_time p t xx) w
                      + Trans.T_2_at p p w t N xx
                      + Trans.T_4_at p p w t N xx)))
  /\ ((4 < N)%Z ->
      Driver.wave_with_incident p x t w N
      = Raise "Reflection terms beyond n=3 have not been coded."%string).
Proof.
  split.
  - intros HN Hg. unfold Driver.wave_with_incident, Driver.wave.
    rewrite reflected_wave_accepted, transmitted_wave_accepted by exact HN.
    rewrite !vadd_map.
    eexists. split; [reflexivity|]. split; [apply vmap_length|].
    intros i xx Hi. rewrite vmap_nth_error, Hi. cbn [option_map].
    split; [| split]; intros Hx; apply f_equal; unfold Rgtb.
    + rewrite (Rltb_true xx (x_0 p)), (Rltb_false (x_r p) xx) by lra.
      cbn [b2r]. ring.
    + rewrite (Rltb_false xx (x_0 p)), (Rltb_false (x_r p) xx) by lra.
      cbn [b2r]. ring.
    + rewrite (Rltb_false xx (x_0 p)), (Rltb_true (x_r p) xx) by lra.
      cbn [b2r]. ring.
  - intros HN. unfold Driver.wave_with_incident, Driver.wave.
    now rewrite reflected_wave_rejected by exact HN.
Qed.

Lemma comparison_wave_by_region_fig8a :
  exists out : array,
    Driver.wave_with_incident fig8a [-1; 1 / 2; 2] 1 1 2 = Ok out
    /\ nth_error out 1 = Some 0.
Proof.
  destruct (comparison_wave_by_region fig8a midpoint [-1; 1 / 2; 2] 1 1 2)
    as [Hok _].
  destruct Hok as (out & E & _ & H); [lia | cbn; lra |].
  exists out. split; [exact E|].
  destruct (H 1%nat (1 / 2) eq_refl) as (_ & Hmid & _).
  apply Hmid. cbn. lra.
Defined.

(** ** Signs of the reflection terms *)

Lemma ln_le_compat (a b : R) : 0 < a -> a <= b -> ln a <= ln b.
Proof.
  intros Ha [Hlt | ->]; [left; now apply ln_increasing | right; reflexivity].
Qed.

(** With no oscillation, the impedance changes between two points by sZ
    times a nonnegative amount. *)
Lemma Z_fun_increment (p : Params) (a b : R) :
  oscillate p = 0 -> x_0 p < x_r p -> a <= b ->
  exists lam : R, 0 <= lam /\ Z_fun p b - Z_fun p a = sZ p * lam.
Proof.
  intros Ho Hg Hab.
  exists (Rmax 0 (Rmin (b - x_0 p) (x_r p - x_0 p))
          - Rmax 0 (Rmin (a - x_0 p) (x_r p - x_0 p))).
  split.
  - pose proof (ramp_monotone (a - x_0 p) (b - x_0 p) (x_r p - x_0 p)). lra.
  - rewrite !Z_fun_ramp by assumption. ring.
Qed.

(** [sZ * (ln Z(b) - ln Z(a)) >= 0] for a <= b. *)
Lemma sZ_times_log_increment (p : Params) (a b : R) :
  oscillate p = 0 -> x_0 p < x_r p -> 0 < Z_l p -> 0 < Z_r p -> a <= b ->
  0 <= sZ p * (ln (Z_fun p b) - ln (Z_fun p a)).
Proof.
  intros Ho Hg Hl Hr Hab.
  destruct (Z_fun_increment p a b Ho Hg Hab) as (lam & Hlam & E).
  pose proof (Z_fun_pos p a Ho Hg Hl Hr) as Pa.
  pose proof (Z_fun_pos p b Ho Hg Hl Hr) as Pb.
  destruct (Rle_dec 0 (sZ p)) as [Hs | Hs].
  - assert (Z_fun p a <= Z_fun p b) by nra.
    pose proof (ln_le_compat _ _ Pa H). nra.
  - assert (Z_fun p b <= Z_fun p a) by nra.
    pose proof (ln_le_compat _ _ Pb H). nra.
Qed.

Lemma Z_prime_no_oscillation (p : Params) (x : R) :
  oscillate p = 0 -> Z_prime p x = sZ p.
Proof.
  intros Ho. unfold Z_prime.
  destruct (Req_dec_T (oscillate p) 0); [reflexivity | contradiction].
Qed.

Lemma T2_integrand_le_0 (g q : Params) (w t x1 : R) :
  oscillate g = 0 -> x_0 g < x_r g -> 0 < Z_l g -> 0 < Z_r g ->
  0 < c_l g -> s g <> 0 -> 0 < t_r g -> 0 <= Trans.t_w q w ->
  Trans.T2_integrand g q w t x1 <= 0.
Proof.
  intros Ho Hg Hl Hr Hc Hs Htr Hw.
  unfold Trans.T2_integrand. cbv zeta.
  rewrite Z_prime_no_oscillation by exact Ho.
  set (lo := X g (T g x1 - (t - t_r g) / 2)).
  set (up := X g (T g x1 - (t - t_r g - Trans.t_w q w) / 2)).
  assert (Hlu : lo <= up)
    by (apply X_nondecreasing; try assumption; lra).
  assert (Hm : Rmin lo x1 <= Rmin up x1)
    by (apply Rle_min_compat_r; exact Hlu).
  pose proof (sZ_times_log_increment g _ _ Ho Hg Hl Hr Hm) as Hsign.
  pose proof (Z_fun_pos g x1 Ho Hg Hl Hr) as P1.
  set (D := ln (Z_fun g (Rmin up x1)) - ln (Z_fun g (Rmin lo x1))) in *.
  replace (- sZ g / (4 * Z_fun g x1) * D)
    with (- (sZ g * D) * / (4 * Z_fun g x1)) by (field; lra).
  assert (0 < / (4 * Z_fun g x1)) by (apply Rinv_0_lt_compat; lra).
  nra.
Qed.

(** X16.  With a linear impedance (no oscillation, positive end values),
    c_l > 0, s != 0, t_r > 0 and t_w >= 0, the integrand of the
    twice-reflected term is never positive, whichever way the impedance
    changes; hence [T2] itself is never positive under a quadrature routine
    that maps nonpositive integrands on [a, b], a <= b, to nonpositive
    values (x_r >= 0). *)
Theorem twice_reflected_term_nonpositive
  (g : Params) (quadrature : Integrate) (q : Params) (w t : R) :
  oscillate g = 0 -> x_0 g < x_r g -> 0 < Z_l g -> 0 < Z_r g ->
  0 < c_l g -> s g <> 0 -> 0 < t_r g -> 0 <= Trans.t_w q w ->
  (forall x1 : R, Trans.T2_integrand g q w t x1 <= 0)
  /\ ((forall (f : R -> R) (a b : R),
         a <= b -> (forall u, f u <= 0) -> quad f a b <= 0) ->
      0 <= x_r q -> Trans.T2 g q w t <= 0).
Proof.
  intros Ho Hg Hl Hr Hc Hs Htr Hw. split.
  - intros x1. now apply T2_integrand_le_0.
  - intros Hq Hx. unfold Trans.T2.
    destruct ((t <? t_r g) || (t >? 3 * t_r g + Trans.t_w q w));
      [lra|].
    assert (Hp : 0 < Rpower (Z_r q / Z_l q) (1 / 2))
      by (unfold Rpower; apply exp_pos).
    assert (Hi : quad (Trans.T2_integrand g q w t) 0 (x_r q) <= 0).
    { apply Hq; [exact Hx|]. intros u. now apply T2_integrand_le_0. }
    nra.
Qed.

Lemma midpoint_quad_nonpositive (f : R -> R) (a b : R) :
  a <= b -> (forall u, f u <= 0) -> @quad midpoint f a b <= 0.
Proof.
  intros Hab Hf. cbn. unfold midpoint_quad.
  pose proof (Hf ((a + b) / 2)). nra.
Qed.

Lemma twice_reflected_term_nonpositive_fig8a :
  (oscillate fig8a = 0 /\ x_0 fig8a < x_r fig8a
   /\ 0 < Z_l fig8a /\ 0 < Z_r fig8a
   /\ 0 < c_l fig8a /\ s fig8a <> 0 /\ 0 < t_r fig8a
   /\ 0 <= Trans.t_w fig8a 1)
  /\ Trans.T2_integrand fig8a fig8a 1 1 (1 / 2) <= 0
  /\ Trans.T2 fig8a fig8a 1 1 <= 0.
Proof.
  pose proof fig8a_t_r_bounds as Hb.
  assert (Ho : oscillate fig8a = 0) by reflexivity.
  assert (Hg : x_0 fig8a < x_r fig8a) by (cbn; lra).
  assert (Hl : 0 < Z_l fig8a) by (cbn; lra).
  assert (Hr : 0 < Z_r fig8a) by (cbn; lra).
  assert (Hw : 0 <= Trans.t_w fig8a 1) by (unfold Trans.t_w; cbn; lra).
  destruct (twice_reflected_term_nonpositive
              fig8a midpoint fig8a 1 1 Ho Hg Hl Hr
              fig8a_c_l_pos fig8a_s_nonzero (proj1 Hb) Hw) as [Hint HT2].
  split.
  - split; [exact Ho |]. split; [exact Hg |]. split; [exact Hl |].
    split; [exact Hr |]. split; [exact fig8a_c_l_pos |].
    split; [exact fig8a_s_nonzero |]. split; [apply Hb | exact Hw].
  - split; [apply Hint |].
    apply HT2; [exact midpoint_quad_nonpositive | cbn; lra].
Defined.

Lemma ln_quotient (a b : R) : 0 < a -> 0 < b -> ln (a / b) = ln a - ln b.
Proof.
  intros Ha Hb. unfold Rdiv.
  rewrite ln_mult by (try apply Rinv_0_lt_compat; assumption).
  rewrite ln_Rinv by assumption. ring.
Qed.

(** X17.  With a linear impedance (no oscillation, positive end values),
    c_l > 0, s != 0, t_r > 0, t_w >= 0 and the evaluator made with the
    module-level x_r, the first reflection has the sign of the impedance
    slope at every time other than 2*t_r: sZ * R_1(t) >= 0. *)
Theorem first_reflection_has_sign_of_slope (g q : Params) (w t : R) :
  oscillate g = 0 -> x_0 g < x_r g -> 0 < Z_l g -> 0 < Z_r g ->
  0 < c_l g -> s g <> 0 -> 0 < t_r g -> 0 <= Refl.t_w q w ->
  x_r q = x_r g -> t <> 2 * t_r g ->
  0 <= sZ g * Refl.R_1 g q w t.
Proof.
  intros Ho Hg Hl Hr Hc Hs Htr Hw Hx Hne.
  destruct (Rle_dec t 0) as [Ht | Ht].
  - rewrite R_1_before by exact Ht. lra.
  - rewrite (R_1_matches_closed_form_aux g q w t)
      by first [assumption | now apply Z_fun_pos | lra].
    rewrite ln_quotient by now apply Z_fun_pos.
    assert (Hab : X g ((t - Refl.t_w q w) / 2) <= X g (t / 2))
      by (apply X_nondecreasing; try assumption; lra).
    pose proof (sZ_times_log_increment g _ _ Ho Hg Hl Hr Hab). nra.
Qed.

Lemma first_reflection_has_sign_of_slope_fig8a :
  (oscillate fig8a = 0 /\ x_0 fig8a < x_r fig8a
   /\ 0 < Z_l fig8a /\ 0 < Z_r fig8a
   /\ 0 < c_l fig8a /\ s fig8a <> 0 /\ 0 < t_r fig8a
   /\ 0 <= Refl.t_w fig8a 1 /\ x_r fig8a = x_r fig8a
   /\ 1 / 2 <> 2 * t_r fig8a)
  /\ 0 <= sZ fig8a * Refl.R_1 fig8a fig8a 1 (1 / 2).
Proof.
  pose proof fig8a_t_r_bounds as Hb.
  assert (Ho : oscillate fig8a = 0) by reflexivity.
  assert (Hg : x_0 fig8a < x_r fig8a) by (cbn; lra).
  assert (Hl : 0 < Z_l fig8a) by (cbn; lra).
  assert (Hr : 0 < Z_r fig8a) by (cbn; lra).
  assert (Hw : 0 <= Refl.t_w fig8a 1) by (unfold Refl.t_w; cbn; lra).
  assert (Hne : 1 / 2 <> 2 * t_r fig8a)
    by (rewrite fig8a_t_r; pose proof ln_lt_2; lra).
  split.
  - split; [exact Ho |]. split; [exact Hg |]. split; [exact Hl |].
    split; [exact Hr |]. split; [exact fig8a_c_l_pos |].
    split; [exact fig8a_s_nonzero |]. split; [apply Hb |].
    split; [exact Hw |]. split; [reflexivity | exact Hne].
  - exact (first_reflection_has_sign_of_slope
             fig8a fig8a 1 (1 / 2) Ho Hg Hl Hr fig8a_c_l_pos
             fig8a_s_nonzero (proj1 Hb) Hw eq_refl Hne).
Defined.

(** X18.  At the single instant t = 2*t_r the sign is the opposite one:
    there [beta] is 0 while [alpha] is still inside the slope, so with a
    linear impedance of nonzero slope, x_0 = 0 and 0 < t_w < 2*t_r,
    sZ * R_1(2*t_r) < 0. *)
Theorem first_reflection_flips_at_2t_r (g q : Params) (w : R) :
  oscillate g = 0 -> x_0 g = 0 -> 0 < Z_l g -> 0 < Z_r g ->
  0 < c_l g -> s g <> 0 -> 0 < t_r g -> sZ g <> 0 ->
  0 < Refl.t_w q w < 2 * t_r g ->
  sZ g * Refl.R_1 g q w (2 * t_r g) < 0.
Proof.
  intros Ho H0 Hl Hr Hc Hs Htr HsZ [Hw1 Hw2].
  assert (Hxr : 0 < x_r g) by (apply (t_r_pos_iff g Hc Hs); exact Htr).
  assert (Hg : x_0 g < x_r g) by lra.
  unfold Refl.R_1.
  rewrite Rgtb_true by lra. cbn [b2r].
  rewrite beta_at_2t_r, alpha_early by lra.
  set (a := X g ((2 * t_r g - Refl.t_w q w) / 2)).
  assert (Ha : 0 < a < x_r g) by (apply X_between; try assumption; lra).
  rewrite ln_quotient by now apply Z_fun_pos.
  pose proof (Z_fun_pos g a Ho Hg Hl Hr) as Pa.
  pose proof (Z_fun_pos g 0 Ho Hg Hl Hr) as P0.
  assert (E0 : Z_fun g 0 = Z_l g)
    by (rewrite Z_fun_mid by (assumption || lra); rewrite H0; ring).
  assert (Ea : Z_fun g a = Z_l g + sZ g * a)
    by (rewrite Z_fun_mid by (assumption || lra); rewrite H0; ring).
  destruct (Rtotal_order (sZ g) 0) as [Hneg | [Hz | Hpos]];
    [| contradiction |].
  - assert (Hlt : Z_fun g a < Z_fun g 0) by nra.
    pose proof (ln_increasing _ _ Pa Hlt). nra.
  - assert (Hlt : Z_fun g 0 < Z_fun g a) by nra.
    pose proof (ln_increasing _ _ P0 Hlt). nra.
Qed.

Lemma fig8a_sZ : sZ fig8a = 1 / 2.
Proof. unfold sZ. cbn. field. Qed.

Lemma first_reflection_flips_at_2t_r_fig8a :
  (oscillate fig8a = 0 /\ x_0 fig8a = 0
   /\ 0 < Z_l fig8a /\ 0 < Z_r fig8a
   /\ 0 < c_l fig8a /\ s fig8a <> 0 /\ 0 < t_r fig8a /\ sZ fig8a <> 0
   /\ 0 < Refl.t_w fig8a 1 < 2 * t_r fig8a)
  /\ sZ fig8a * Refl.R_1 fig8a fig8a 1 (2 * t_r fig8a) < 0.
Proof.
  pose proof fig8a_t_r_bounds as Hb.
  assert (Ho : oscillate fig8a = 0) by reflexivity.
  assert (H0 : x_0 fig8a = 0) by reflexivity.
  assert (Hl : 0 < Z_l fig8a) by (cbn; lra).
  assert (Hr : 0 < Z_r fig8a) by (cbn; lra).
  assert (HsZ : sZ fig8a <> 0) by (rewrite fig8a_sZ; lra).
  assert (Hw : 0 < Refl.t_w fig8a 1 < 2 * t_r fig8a).
  { unfold Refl.t_w. rewrite fig8a_t_r. pose proof ln_lt_2. cbn. lra. }
  split.
  - split; [exact Ho |]. split; [exact H0 |]. split; [exact Hl |].
    split; [exact Hr |]. split; [exact fig8a_c_l_pos |].
    split; [exact fig8a_s_nonzero |]. split; [apply Hb |].
    split; [exact HsZ | exact Hw].
  - exact (first_reflection_flips_at_2t_r
             fig8a fig8a 1 Ho H0 Hl Hr fig8a_c_l_pos fig8a_s_nonzero
             (proj1 Hb) HsZ Hw).
Defined.

(** ** [Z_prime] outside the slope *)

(** X19.  Outside the slope [Z_fun] is locally constant, so its
    derivative there is 0; [Z_prime] keeps returning the slope's value and
    is not the derivative of [Z_fun] at such a point unless it happens to
    vanish there. *)
Theorem Z_prime_is_not_derivative_outside (p : Params) (x : R) :
  x_0 p <= x_r p -> x < x_0 p \/ x_r p < x ->
  derivable_pt_lim (Z_fun p) x 0
  /\ (Z_prime p x <> 0 -> ~ derivable_pt_lim (Z_fun p) x (Z_prime p x)).
Proof.
  intros Hg Hx.
  assert (D0 : derivable_pt_lim (Z_fun p) x 0).
  { destruct Hx as [Hl | Hr].
    - apply (derivable_pt_lim_locally_ext
               (fct_cte (Z_l p)) (Z_fun p) x (x - 1) (x_0 p)); [lra | |].
      + intros z Hz. unfold fct_cte. symmetry. apply Z_fun_left; lra.
      + apply derivable_pt_lim_const.
    - apply (derivable_pt_lim_locally_ext
               (fct_cte (Z_r p)) (Z_fun p) x (x_r p) (x + 1)); [lra | |].
      + intros z Hz. unfold fct_cte. symmetry. apply Z_fun_right; lra.
      + apply derivable_pt_lim_const. }
  split; [exact D0|].
  intros Hne D. apply Hne. symmetry.
  exact (uniqueness_limite (Z_fun p) x 0 (Z_prime p x) D0 D).
Qed.

Lemma Z_prime_is_not_derivative_outside_fig8a :
  (x_0 fig8a <= x_r fig8a /\ -1 < x_0 fig8a)
  /\ derivable_pt_lim (Z_fun fig8a) (-1) 0
  /\ ~ derivable_pt_lim (Z_fun fig8a) (-1) (Z_prime fig8a (-1)).
Proof.
  assert (Hg : x_0 fig8a <= x_r fig8a) by (cbn; lra).
  assert (Hx : -1 < x_0 fig8a) by (cbn; lra).
  destruct (Z_prime_is_not_derivative_outside fig8a (-1) Hg (or_introl Hx))
    as [D0 Hn].
  split; [split; assumption | split; [exact D0 |]].
  apply Hn. rewrite Z_prime_no_oscillation by reflexivity.
  rewrite fig8a_sZ. lra.
Defined.
